(** * PgKKSql: the query engine behind the grid

    A shallow embedding of [db.py] (profile store, [Database] session) and of
    the non-graphical parts of [ui.py] ([ResultsModel], the table resolver
    [_parse_table_from_query] and [_commit_changes]), with the properties the
    specification states about them; and, beyond the specification, of the
    catalogue queries, the saving of profiles, the checks of [_execute_query],
    the completion list of [SqlEditor], the profile list of
    [ConnectionDialog] and the session side of the tree.

    Conventions of the embedding:
    - Python [str] is [string]; the text is ASCII, characters above 127 are
      carried along uninterpreted (no case, no whitespace class);
    - Python values that reach a grid cell or a profile field are [pyval]
      (None, bool, int, str); floating point values are left out;
    - a Python exception is the [Raise] branch of [result];
    - psycopg is not part of the repository: its behaviour is the [Driver]
      record, a parameter of every session operation. *)

From Stdlib Require Import ZArith NArith Bool Ascii String List Lia.
From Stdlib Require Import DecimalString Sorted OrdersEx.
From stdpp Require Import base option list gmap strings.

Local Open Scope string_scope.
Local Open Scope list_scope.
Set Warnings "-register-all".

(** ** Python text primitives *)

Module Py.

Definition code (c : ascii) : N := N_of_ascii c.

Definition between (lo hi : N) (c : ascii) : bool :=
  ((lo <=? code c) && (code c <=? hi))%N.

(** [str.isspace] on ASCII: tab .. carriage return, the four separators
    0x1c .. 0x1f, and the blank. [str.strip()] and the regex class [\s]
    both use it. *)
Definition is_space (c : ascii) : bool :=
  between 9 13 c || between 28 31 c || (code c =? 32)%N.

Definition is_lower (c : ascii) : bool := between 97 122 c.
Definition is_upper (c : ascii) : bool := between 65 90 c.
Definition is_digit (c : ascii) : bool := between 48 57 c.

Definition upper_char (c : ascii) : ascii :=
  if is_lower c then ascii_of_N (code c - 32) else c.

(** [s.upper()] *)
Fixpoint upper (s : string) : string :=
  match s with
  | EmptyString => EmptyString
  | String c r => String (upper_char c) (upper r)
  end.

(** [s.lstrip(chars)], the set of characters given as a predicate *)
Fixpoint lstrip (p : ascii -> bool) (s : string) : string :=
  match s with
  | EmptyString => EmptyString
  | String c r => if p c then lstrip p r else s
  end.

Definition is_empty (s : string) : bool :=
  match s with EmptyString => true | String _ _ => false end.

(** [s.rstrip(chars)]: a character goes when it is in the set and all that
    follows it went too. *)
Fixpoint rstrip (p : ascii -> bool) (s : string) : string :=
  match s with
  | EmptyString => EmptyString
  | String c r =>
      let r' := rstrip p r in
      if is_empty r' && p c then EmptyString else String c r'
  end.

(** [s.strip()] *)
Definition strip (s : string) : string := rstrip is_space (lstrip is_space s).

(** [s.startswith(p)] *)
Definition startswith (p s : string) : bool := String.prefix p s.

(** [p in s] on strings *)
Fixpoint contains (p s : string) : bool :=
  String.prefix p s ||
  match s with
  | EmptyString => false
  | String _ r => contains p r
  end.

(** Number of positions of [s] at which [p] starts. *)
Fixpoint occurrences (p s : string) : nat :=
  (if String.prefix p s then 1 else 0) +
  match s with
  | EmptyString => 0
  | String _ r => occurrences p r
  end.

(** No character of [p] is the upper-cased form of a character of class [P]. *)
Definition clean (P : ascii -> bool) (p : string) : Prop :=
  forall c, P c = true -> ~ In (upper_char c) (list_ascii_of_string p).

(** Truth value of a string: [if s:] *)
Definition truthy_str (s : string) : bool := negb (is_empty s).

(** The double quote, written by its code. *)
Definition dq : ascii := "034"%char.
Definition dqs : string := String dq EmptyString.

End Py.

(** ** The fragment of [re] the resolver uses

    A backtracking matcher with Python's priorities: a repetition takes as
    many characters as it can and gives them back one at a time, an
    alternation tries its branches from the left, [search] tries every start
    position from the left. Repetition is over one-character classes, which is
    all the four patterns of the resolver need. *)

Module Re.

Inductive re : Type :=
| Chr (p : ascii -> bool)        (* one character of a class *)
| Many (p : ascii -> bool)       (* [p*], greedy *)
| Seq (a b : re)
| Alt (a b : re)
| Group (n : nat) (a : re)       (* capturing group number n *)
| Eos.                           (* [$] *)

Definition caps : Type := list (nat * string).

Fixpoint group (n : nat) (cs : caps) : string :=
  match cs with
  | [] => EmptyString
  | (k, s) :: r => if Nat.eqb k n then s else group n r
  end.

(** The text consumed between two positions of the same string, each given
    by what is left to read. *)
Definition consumed (from to : string) : string :=
  String.substring 0 (String.length from - String.length to) from.

(** [$] without MULTILINE: the end, or just before a final newline. *)
Definition at_end (s : string) : bool :=
  match s with
  | EmptyString => true
  | String c EmptyString => (Py.code c =? 10)%N
  | _ => false
  end.

Fixpoint run (r : re) (s : string) (cs : caps)
         (k : string -> caps -> option caps) {struct r} : option caps :=
  match r with
  | Chr p =>
      match s with
      | String c s' => if p c then k s' cs else None
      | EmptyString => None
      end
  | Many p =>
      (fix more (s : string) : option caps :=
         match s with
         | String c s' =>
             if p c
             then match more s' with
                  | Some m => Some m
                  | None => k s cs
                  end
             else k s cs
         | EmptyString => k s cs
         end) s
  | Seq a b => run a s cs (fun s' cs' => run b s' cs' k)
  | Alt a b =>
      match run a s cs k with
      | Some m => Some m
      | None => run b s cs k
      end
  | Group n a => run a s cs (fun s' cs' => k s' ((n, consumed s s') :: cs'))
  | Eos => if at_end s then k s cs else None
  end.

Definition match_here (r : re) (s : string) : option caps :=
  run r s [] (fun _ cs => Some cs).

(** [re.search(r, s)] *)
Fixpoint search (r : re) (s : string) : option caps :=
  match match_here r s with
  | Some m => Some m
  | None =>
      match s with
      | EmptyString => None
      | String _ s' => search r s'
      end
  end.

(** Building blocks, all under [re.IGNORECASE]. *)
Definition lit_char (c : ascii) : re :=
  Chr (fun x => Ascii.eqb (Py.upper_char x) (Py.upper_char c)).

Fixpoint lit (w : string) : re :=
  match w with
  | EmptyString => Many (fun _ => false)
  | String c EmptyString => lit_char c
  | String c r => Seq (lit_char c) (lit r)
  end.

Definition plus (p : ascii -> bool) : re := Seq (Chr p) (Many p).

Definition seq (l : list re) : re :=
  match l with
  | [] => Many (fun _ => false)
  | a :: r => fold_left Seq r a
  end.

Definition alt (l : list re) : re :=
  match l with
  | [] => Chr (fun _ => false)
  | a :: r => fold_left Alt r a
  end.

End Re.

(** ** ui.py: the table reference resolver *)

Module Resolver.
Import Py Re.

Definition is_dq (c : ascii) : bool := Ascii.eqb c dq.
Definition not_dq (c : ascii) : bool := negb (is_dq c).
Definition is_dot (c : ascii) : bool := Ascii.eqb c "."%char.
(** [[a-zA-Z_]] and [[a-zA-Z0-9_]] *)
Definition ident_start (c : ascii) : bool :=
  is_lower c || is_upper c || Ascii.eqb c "_"%char.
Definition ident_char (c : ascii) : bool := ident_start c || is_digit c.

Definition quoted (n : nat) : re :=
  seq [Chr is_dq; Group n (plus not_dq); Chr is_dq].
Definition bare (n : nat) : re :=
  Group n (Seq (Chr ident_start) (Many ident_char)).
Definition from_kw : re := Seq (lit "FROM") (plus is_space).
Definition dot : re := seq [Many is_space; Chr is_dot; Many is_space].
(** [(?:\s|$|WHERE|ORDER|GROUP|LIMIT)] *)
Definition stop : re :=
  alt [Chr is_space; Eos; lit "WHERE"; lit "ORDER"; lit "GROUP"; lit "LIMIT"].

(** The four patterns, in the order of the source list. *)
Definition pat_quoted_schema_table : re := seq [from_kw; quoted 1; dot; quoted 2].
Definition pat_bare_schema_table : re := seq [from_kw; bare 1; dot; bare 2].
Definition pat_quoted_table : re := seq [from_kw; quoted 1; stop].
Definition pat_bare_table : re := seq [from_kw; bare 1; stop].

Definition patterns : list re :=
  [pat_quoted_schema_table; pat_bare_schema_table;
   pat_quoted_table; pat_bare_table].

(** The loop [for i, pattern in enumerate(patterns)]: [i] counts the
    patterns already tried. *)
Fixpoint try_patterns (i : nat) (ps : list re) (query : string)
  : string * string :=
  match ps with
  | [] => ("", "")
  | pattern :: rest =>
      match search pattern query with
      | Some m =>
          if Nat.ltb i 2
          then (group 1 m, group 2 m)
          else ("public", group 1 m)
      | None => try_patterns (S i) rest query
      end
  end.

(** [MainWindow._parse_table_from_query] *)
Definition _parse_table_from_query (query : string) : string * string :=
  let query_upper := upper query in
  if contains " JOIN " query_upper
  then ("", "")
  else try_patterns 0 patterns query.

(** Which pattern of a list is the first to match, if any. *)
Fixpoint first_match (i : nat) (ps : list re) (query : string)
  : option (nat * caps) :=
  match ps with
  | [] => None
  | pattern :: rest =>
      match search pattern query with
      | Some m => Some (i, m)
      | None => first_match (S i) rest query
      end
  end.

(** Two texts of the specification that hold double quotes. *)
Definition quoted_s_t : string :=
  "SELECT * FROM " +:+ dqs +:+ "s" +:+ dqs +:+ "." +:+ dqs +:+ "t" +:+ dqs.

Definition quoted_t : string := "SELECT * FROM " +:+ dqs +:+ "t" +:+ dqs.

End Resolver.

(** ** Python values, exceptions *)

(** What a grid cell or a profile field can hold. *)
Inductive pyval : Type :=
| PNone
| PBool (b : bool)
| PInt (z : Z)
| PStr (s : string).

Inductive exn : Type :=
| JSONDecodeError
| KeyError
| TypeError
| IndexError
| PsycopgError (msg : string).

Inductive result (A : Type) : Type :=
| Ok (a : A)
| Raise (e : exn).
Arguments Ok {A} a.
Arguments Raise {A} e.

Definition bind {A B : Type} (r : result A) (f : A -> result B) : result B :=
  match r with
  | Ok a => f a
  | Raise e => Raise e
  end.

Notation "x <- r ;; k" := (bind r (fun x => k))
  (at level 100, r at next level, right associativity).

Module Value.

(** [bool] is a subclass of [int]: [True == 1]. *)
Definition as_int (v : pyval) : option Z :=
  match v with
  | PBool b => Some (if b then 1 else 0)%Z
  | PInt z => Some z
  | _ => None
  end.

(** [a == b] *)
Definition py_eq (a b : pyval) : bool :=
  match a, b with
  | PNone, PNone => true
  | PStr x, PStr y => String.eqb x y
  | _, _ =>
      match as_int a, as_int b with
      | Some x, Some y => Z.eqb x y
      | _, _ => false
      end
  end.

(** [a != b] *)
Definition py_ne (a b : pyval) : bool := negb (py_eq a b).

(** [a < b]: numbers with numbers, text with text, anything else is a
    [TypeError]. *)
Definition py_lt (a b : pyval) : result bool :=
  match a, b with
  | PStr x, PStr y => Ok (String.ltb x y)
  | _, _ =>
      match as_int a, as_int b with
      | Some x, Some y => Ok (Z.ltb x y)
      | _, _ => Raise TypeError
      end
  end.

(** [bool(v)] *)
Definition truthy (v : pyval) : bool :=
  match v with
  | PNone => false
  | PBool b => b
  | PInt z => negb (Z.eqb z 0)
  | PStr s => Py.truthy_str s
  end.

(** [a or b] *)
Definition py_or (a b : pyval) : pyval := if truthy a then a else b.

Definition decimal (z : Z) : string :=
  DecimalString.NilZero.string_of_int (Z.to_int z).

(** [str(v)], as an f-string formats a field *)
Definition py_str (v : pyval) : string :=
  match v with
  | PNone => "None"
  | PBool true => "True"
  | PBool false => "False"
  | PInt z => decimal z
  | PStr s => s
  end.

End Value.

(** ** db.py: the profile store *)

Module Store.
Import Value.

(** The dataclass; Python does not check the declared field types, a field
    holds the value the document gave it. *)
Record ConnectionInfo : Type := {
  name : pyval;
  host : pyval;
  port : pyval;
  dbname : pyval;
  user : pyval;
  password : pyval;
  last_connected_at : pyval   (* ISO timestamp *)
}.

(** [connection_string] *)
Definition connection_string (c : ConnectionInfo) : string :=
  "host=" +:+ py_str (host c) +:+ " port=" +:+ py_str (port c) +:+
  " dbname=" +:+ py_str (dbname c) +:+ " user=" +:+ py_str (user c) +:+
  " password=" +:+ py_str (password c).

(** What [json.load] returns. The members of an object are scalars: a
    profile record with nested arrays or objects is not represented. *)
Inductive json : Type :=
| JVal (v : pyval)
| JArr (l : list json)
| JObj (d : gmap string pyval).

(** The file [connections.json]: absent, text that is not JSON, or a JSON
    document. *)
Inductive store : Type :=
| Missing
| Garbled
| Doc (j : json).

Definition field_names : list string :=
  ["name"; "host"; "port"; "dbname"; "user"; "password"; "last_connected_at"].

Definition is_field (k : string) : bool :=
  existsb (String.eqb k) field_names.

Definition keys (d : gmap string pyval) : list string := (map_to_list d).*1.

(** [cls] applied to the unpacked dict: the generated [__init__] takes the
    seven fields by keyword, [name] is required, the others have defaults; an unknown
    keyword or a missing [name] is a [TypeError]. *)
Definition cls (data : gmap string pyval) : result ConnectionInfo :=
  if forallb is_field (keys data)
  then match data !! "name" with
       | None => Raise TypeError
       | Some n =>
           Ok {| name := n;
                 host := default (PStr "localhost") (data !! "host");
                 port := default (PInt 5432) (data !! "port");
                 dbname := default (PStr "postgres") (data !! "dbname");
                 user := default (PStr "postgres") (data !! "user");
                 password := default (PStr "") (data !! "password");
                 last_connected_at := default PNone (data !! "last_connected_at") |}
       end
  else Raise TypeError.

(** [ConnectionInfo.from_dict]. On anything but an object the method fails
    with a [TypeError]: [in] is not defined on a number, [None] or a boolean;
    a string or a list passes the [in] test and then fails either at the item
    assignment or at the [**] unpacking. *)
Definition from_dict (data : json) : result ConnectionInfo :=
  match data with
  | JObj d =>
      let d' := if bool_decide (is_Some (d !! "last_connected_at"))
                then d
                else <["last_connected_at" := PNone]> d in
      cls d'
  | JArr _ => Raise TypeError
  | JVal _ => Raise TypeError
  end.

Fixpoint chars (s : string) : list string :=
  match s with
  | EmptyString => []
  | String c r => String c EmptyString :: chars r
  end.

(** [for c in data]: the members of a list, the keys of a dict, the
    characters of a string; nothing else can be iterated. *)
Definition iterate (data : json) : result (list json) :=
  match data with
  | JArr l => Ok l
  | JObj d => Ok (map (fun k => JVal (PStr k)) (keys d))
  | JVal (PStr s) => Ok (map (fun c => JVal (PStr c)) (chars s))
  | JVal _ => Raise TypeError
  end.

(** A list comprehension: the first exception ends it. *)
Fixpoint comprehension {A B : Type} (f : A -> result B) (l : list A)
  : result (list B) :=
  match l with
  | [] => Ok []
  | a :: r =>
      b <- f a ;;
      bs <- comprehension f r ;;
      Ok (b :: bs)
  end.

(** [json.load(f)] on an existing file *)
Definition json_load (s : store) : result json :=
  match s with
  | Doc j => Ok j
  | _ => Raise JSONDecodeError
  end.

(** [load_connections] *)
Definition load_connections (s : store) : result (list ConnectionInfo) :=
  match s with
  | Missing => Ok []
  | _ =>
      let body :=
        data <- json_load s ;;
        items <- iterate data ;;
        comprehension from_dict items in
      match body with
      | Raise JSONDecodeError => Ok []
      | Raise KeyError => Ok []
      | r => r
      end
  end.

(** [sort_key]: [c.last_connected_at or ""] *)
Definition sort_key (c : ConnectionInfo) : pyval :=
  py_or (last_connected_at c) (PStr "").

Section Sorting.
Context {A : Type} (key : A -> pyval).

(** Stable insertion with [<] on the keys only, as [list.sort] compares. *)
Fixpoint insert_sorted (x : A) (l : list A) : result (list A) :=
  match l with
  | [] => Ok [x]
  | y :: r =>
      lt <- py_lt (key y) (key x) ;;
      if lt
      then (r' <- insert_sorted x r ;; Ok (y :: r'))
      else Ok (x :: y :: r)
  end.

(** [sorted(l, key=key)] *)
Fixpoint sorted (l : list A) : result (list A) :=
  match l with
  | [] => Ok []
  | x :: r => r' <- sorted r ;; insert_sorted x r'
  end.

(** [sorted(l, key=key, reverse=True)]: the list is reversed, sorted and
    reversed again, which keeps equal keys in their original order. *)
Definition sorted_reverse (l : list A) : result (list A) :=
  r <- sorted (rev l) ;; Ok (rev r).

End Sorting.

(** [get_last_connection] *)
Definition get_last_connection (s : store) : result (option ConnectionInfo) :=
  connections <- load_connections s ;;
  match connections with
  | [] => Ok None
  | _ =>
      sorted_conns <- sorted_reverse sort_key connections ;;
      Ok (head sorted_conns)
  end.

(** A profile has a timestamp when the field is a non-empty string, which is
    how [sort_key] reads it. *)
Definition has_timestamp (c : ConnectionInfo) : bool :=
  match last_connected_at c with
  | PStr s => Py.truthy_str s
  | _ => false
  end.

(** The field has its declared type [Optional[str]]. *)
Definition timestamp_typed (c : ConnectionInfo) : bool :=
  match last_connected_at c with
  | PNone | PStr _ => true
  | _ => false
  end.

(** The timestamp as the sort reads it: the empty text when there is none. *)
Definition timestamp_text (c : ConnectionInfo) : string :=
  match sort_key c with
  | PStr s => s
  | _ => ""
  end.

Definition typed (l : list ConnectionInfo) : Prop :=
  Forall (fun c => timestamp_typed c = true) l.

(** [a] was used no later than [b], in the order of the sort keys. *)
Definition not_after (a b : ConnectionInfo) : Prop :=
  String.ltb (timestamp_text b) (timestamp_text a) = false.

End Store.

(** ** db.py: the [Database] session *)

Module Session.
Import Value Store.

(** A row as [dict_row] decodes it. *)
Abbreviation Row := (gmap string pyval).

(** A statement as it is handed to a cursor: its text, its positional
    parameters, and the name of the server-side cursor when there is one. *)
Record Stmt : Type := {
  text : string;
  params : list pyval;
  cursor_name : option string
}.

(** What a cursor holds after [execute]. *)
Record Cursor : Type := {
  description : option (list (string * Z));   (* name, type code *)
  fetchall : list Row;
  cur_rowcount : Z
}.

Inductive outcome : Type :=
| Done (cur : Cursor)
| Failed (msg : string).          (* raises [psycopg.Error], [str(e) = msg] *)

(** psycopg and the server behind it. [pg_connect] gives the text of the
    error [psycopg.connect] raises, if it raises; [pg_execute] decides a
    statement from what the server has stored and what the open transaction
    has done so far. [commit], [rollback] and [close] do not raise. *)
Record Driver : Type := {
  pg_connect : string -> option string;
  pg_execute : list Stmt -> list Stmt -> Stmt -> outcome
}.

(** [psycopg.Connection]: the statements of its open transaction. *)
Record Connection : Type := {
  closed : bool;
  txn : list Stmt
}.

(** The attributes of a [Database] object. *)
Record Database : Type := {
  conn : option Connection;
  info : option ConnectionInfo
}.

Inductive Event : Type :=
| EvConnect (conninfo : string)
| EvClose (c : Connection)
| EvExecute (s : Stmt)
| EvCommit
| EvRollback.

(** The server side: the statements made durable by a commit, and all that
    the session asked of the driver, in order. *)
Record Server : Type := {
  durable : list Stmt;
  trace : list Event
}.

Record World : Type := {
  db : Database;
  srv : Server
}.

Definition log (e : Event) (s : Server) : Server :=
  {| durable := durable s; trace := trace s ++ [e] |}.

(** [Database()] *)
Definition init : Database := {| conn := None; info := None |}.

(** [Database.disconnect]; an exception of [close] is swallowed. *)
Definition disconnect (w : World) : World :=
  match conn (db w) with
  | Some c =>
      {| db := {| conn := None; info := None |};
         srv := log (EvClose c) (srv w) |}
  | None => w
  end.

(** [Database.connect]; the connection is opened with [autocommit=False]. *)
Definition connect (drv : Driver) (i : ConnectionInfo) (w : World)
  : result unit * World :=
  let w1 := disconnect w in
  let s2 := log (EvConnect (connection_string i)) (srv w1) in
  match pg_connect drv (connection_string i) with
  | Some e => (Raise (PsycopgError e), {| db := db w1; srv := s2 |})
  | None =>
      (Ok tt,
       {| db := {| conn := Some {| closed := false; txn := [] |};
                   info := Some i |};
          srv := s2 |})
  end.

(** [Database.is_connected] *)
Definition is_connected (d : Database) : bool :=
  match conn d with
  | Some c => negb (closed c)
  | None => false
  end.

(** [Database.commit] *)
Definition commit (w : World) : World :=
  match conn (db w) with
  | Some c =>
      {| db := {| conn := Some {| closed := closed c; txn := [] |};
                  info := info (db w) |};
         srv := {| durable := durable (srv w) ++ txn c;
                   trace := trace (srv w) ++ [EvCommit] |} |}
  | None => w
  end.

(** [Database.rollback] *)
Definition rollback (w : World) : World :=
  match conn (db w) with
  | Some c =>
      {| db := {| conn := Some {| closed := closed c; txn := [] |};
                  info := info (db w) |};
         srv := log EvRollback (srv w) |}
  | None => w
  end.

(** [Database.switch_database] *)
Definition switch_database (drv : Driver) (new_dbname : string) (w : World)
  : result unit * World :=
  match info (db w) with
  | None => (Ok tt, w)
  | Some i =>
      let new_info :=
        {| name := name i; host := host i; port := port i;
           dbname := PStr new_dbname; user := user i;
           password := password i; last_connected_at := PNone |} in
      connect drv new_info w
  end.

(** [cur.execute] on a cursor of connection [c]: a statement that succeeds
    joins the open transaction. *)
Definition execute (drv : Driver) (s : Stmt) (c : Connection) (w : World)
  : result Cursor * World :=
  let s' := log (EvExecute s) (srv w) in
  match pg_execute drv (durable (srv w)) (txn c) s with
  | Done cur =>
      (Ok cur,
       {| db := {| conn := Some {| closed := closed c; txn := txn c ++ [s] |};
                   info := info (db w) |};
          srv := s' |})
  | Failed msg => (Raise (PsycopgError msg), {| db := db w; srv := s' |})
  end.

(** The five values [execute_query] returns. *)
Record QueryResult : Type := {
  rows : list Row;
  columns : list string;
  column_types : list Z;
  error : option string;
  rowcount : Z
}.

Definition failed_query (msg : string) : QueryResult :=
  {| rows := []; columns := []; column_types := [];
     error := Some msg; rowcount := 0 |}.

(** The first lines of [execute_query]: the text that goes to the server and
    whether it is taken for a SELECT. *)
Definition is_semicolon (c : ascii) : bool := Ascii.eqb c ";"%char.

Definition prepare (query : string) : bool * string :=
  let query_stripped := Py.rstrip is_semicolon (Py.strip query) in
  let query_upper := Py.upper query_stripped in
  let is_select := Py.startswith "SELECT" query_upper in
  if is_select && negb (Py.contains "LIMIT" query_upper)
  then (is_select, query_stripped +:+ " LIMIT 1000")
  else (is_select, query_stripped).

(** [Database.execute_query] *)
Definition execute_query (drv : Driver) (query : string) (w : World)
  : result QueryResult * World :=
  match conn (db w) with
  | None => (Ok (failed_query "Not connected"), w)
  | Some c =>
      let '(is_select, query_stripped) := prepare query in
      let body : result QueryResult * World :=
        if is_select
        then
          let s := {| text := query_stripped; params := [];
                      cursor_name := Some "pgcustom_cursor" |} in
          match execute drv s c w with
          | (Ok cur, w') =>
              let desc := match description cur with
                          | Some (d :: ds) => d :: ds
                          | _ => []
                          end in
              (Ok {| rows := fetchall cur;
                     columns := map fst desc;
                     column_types := map snd desc;
                     error := None;
                     rowcount := Z.of_nat (length (fetchall cur)) |}, w')
          | (Raise e, w') => (Raise e, w')
          end
        else
          let s := {| text := query_stripped; params := [];
                      cursor_name := None |} in
          match execute drv s c w with
          | (Ok cur, w') =>
              (Ok {| rows := []; columns := []; column_types := [];
                     error := None; rowcount := cur_rowcount cur |}, w')
          | (Raise e, w') => (Raise e, w')
          end in
      match body with
      | (Raise (PsycopgError msg), w') => (Ok (failed_query msg), rollback w')
      | r => r
      end
  end.

(** [sql.Identifier]: wrapped in double quotes, an inner quote doubled. *)
Fixpoint double_quotes (s : string) : string :=
  match s with
  | EmptyString => EmptyString
  | String c r =>
      if Ascii.eqb c Py.dq
      then String c (String c (double_quotes r))
      else String c (double_quotes r)
  end.

Definition identifier (s : string) : string :=
  Py.dqs +:+ double_quotes s +:+ Py.dqs.

(** [sep.join(parts)] *)
Fixpoint join (sep : string) (parts : list string) : string :=
  match parts with
  | [] => ""
  | [p] => p
  | p :: r => p +:+ sep +:+ join sep r
  end.

(** The statement [execute_update] composes. *)
Definition update_stmt (schema table : string) (pk_columns : list string)
  (pk_values : list pyval) (column : string) (new_value : pyval) : Stmt :=
  let where_parts := map (fun pk => identifier pk +:+ " = %s") pk_columns in
  let where_clause := join " AND " where_parts in
  {| text := "UPDATE " +:+ identifier schema +:+ "." +:+ identifier table +:+
             " SET " +:+ identifier column +:+ " = %s WHERE " +:+ where_clause;
     params := new_value :: pk_values;
     cursor_name := None |}.

(** [Database.execute_update] *)
Definition execute_update (drv : Driver) (schema table : string)
  (pk_columns : list string) (pk_values : list pyval) (column : string)
  (new_value : pyval) (w : World) : result (option string) * World :=
  match conn (db w) with
  | None => (Ok (Some "Not connected"), w)
  | Some c =>
      match pk_columns with
      | [] => (Ok (Some "No primary key - cannot update"), w)
      | _ =>
          let query :=
            update_stmt schema table pk_columns pk_values column new_value in
          let body : result (option string) * World :=
            match execute drv query c w with
            | (Ok _, w') => (Ok None, w')
            | (Raise e, w') => (Raise e, w')
            end in
          match body with
          | (Raise (PsycopgError msg), w') => (Ok (Some msg), rollback w')
          | r => r
          end
      end
  end.

(** The statements of the open transaction; none without a connection. *)
Definition pending (w : World) : list Stmt :=
  match conn (db w) with
  | Some c => txn c
  | None => []
  end.

(** psycopg reports every error with a text. *)
Definition messages_not_empty (drv : Driver) : Prop :=
  forall stored open s msg, pg_execute drv stored open s = Failed msg -> msg <> "".

(** The texts of the statements a trace shows as handed to a cursor. *)
Fixpoint sent_texts (t : list Event) : list string :=
  match t with
  | [] => []
  | EvExecute s :: r => text s :: sent_texts r
  | _ :: r => sent_texts r
  end.

(** The states a [Database] object goes through: made by [init], changed by
    [connect], [disconnect], [commit], [rollback], [switch_database], the
    two execution methods, and the statement a catalogue method
    ([get_databases] .. [get_primary_keys]) executes on a cursor of the open
    connection. *)
Inductive reachable (drv : Driver) : World -> Prop :=
| reach_init : forall s, reachable drv {| db := init; srv := s |}
| reach_connect : forall w i,
    reachable drv w -> reachable drv (snd (connect drv i w))
| reach_disconnect : forall w,
    reachable drv w -> reachable drv (disconnect w)
| reach_commit : forall w,
    reachable drv w -> reachable drv (commit w)
| reach_rollback : forall w,
    reachable drv w -> reachable drv (rollback w)
| reach_switch : forall w n,
    reachable drv w -> reachable drv (snd (switch_database drv n w))
| reach_query : forall w q,
    reachable drv w -> reachable drv (snd (execute_query drv q w))
| reach_update : forall w s t pks pvs c v,
    reachable drv w -> reachable drv (snd (execute_update drv s t pks pvs c v w))
| reach_catalogue : forall w c s,
    reachable drv w -> conn (db w) = Some c ->
    reachable drv (snd (execute drv s c w)).

End Session.

(** ** ui.py: [ResultsModel] *)

Module Grid.
Import Value Session.

(** A [QModelIndex]: invalid, or a row and a column, neither negative. *)
Inductive QModelIndex : Type :=
| InvalidIndex
| Index (row column : nat).

Definition isValid (index : QModelIndex) : bool :=
  match index with
  | Index _ _ => true
  | InvalidIndex => false
  end.

Inductive Role : Type :=
| DisplayRole
| EditRole
| BackgroundRole
| ForegroundRole
| TextAlignmentRole
| OtherRole.

Inductive Signal : Type :=
| modelReset
| dataChanged (top_left bottom_right : QModelIndex)
| layoutChanged
| editsChanged (count : nat).

(** What [data] hands to a view. *)
Inductive QVariant : Type :=
| QVal (v : pyval)
| QGlyph (checked : bool)          (* the check mark or the cross *)
| QColor (r g b : Z)
| QAlignCenter.

Definition is_nil {A : Type} (l : list A) : bool :=
  match l with [] => true | _ :: _ => false end.

Definition coord : Type := nat * nat.

Definition coord_eqb (a b : coord) : bool :=
  Nat.eqb (fst a) (fst b) && Nat.eqb (snd a) (snd b).

(** The dict [_edits], in insertion order. *)
Definition edits_dict : Type := list (coord * pyval).

(** [d.get(k)] *)
Fixpoint edits_get (k : coord) (d : edits_dict) : option pyval :=
  match d with
  | [] => None
  | (k', v) :: r => if coord_eqb k' k then Some v else edits_get k r
  end.

(** [k in d] *)
Definition edits_mem (k : coord) (d : edits_dict) : bool :=
  match edits_get k d with Some _ => true | None => false end.

(** [d[k] = v]: a key already there keeps its place, a new one goes last. *)
Fixpoint edits_set (k : coord) (v : pyval) (d : edits_dict) : edits_dict :=
  match d with
  | [] => [(k, v)]
  | (k', v') :: r =>
      if coord_eqb k' k then (k', v) :: r else (k', v') :: edits_set k v r
  end.

(** [del d[k]] *)
Fixpoint edits_del (k : coord) (d : edits_dict) : edits_dict :=
  match d with
  | [] => []
  | (k', v') :: r =>
      if coord_eqb k' k then r else (k', v') :: edits_del k r
  end.

Record ResultsModel : Type := {
  _data : list Row;
  _columns : list string;
  _column_types : list Z;
  _edits : edits_dict;
  _pk_columns : list string;
  _schema : string;
  _table : string;
  _is_error : bool
}.

(** [ResultsModel()] *)
Definition new_model : ResultsModel :=
  {| _data := []; _columns := []; _column_types := []; _edits := [];
     _pk_columns := []; _schema := ""; _table := ""; _is_error := false |}.

(** [set_data]; the table binding is left as it was. *)
Definition set_data (rows : list Row) (columns : list string)
  (column_types : option (list Z)) (m : ResultsModel)
  : ResultsModel * list Signal :=
  ({| _data := rows;
      _columns := columns;
      _column_types := default [] column_types;
      _edits := [];
      _pk_columns := _pk_columns m;
      _schema := _schema m;
      _table := _table m;
      _is_error := match columns with
                   | [c] => String.eqb c "Error"
                   | _ => false
                   end |},
   [modelReset; editsChanged 0]).

(** [set_table_info] *)
Definition set_table_info (schema table : string) (pk_columns : list string)
  (m : ResultsModel) : ResultsModel :=
  {| _data := _data m; _columns := _columns m;
     _column_types := _column_types m; _edits := _edits m;
     _pk_columns := pk_columns; _schema := schema; _table := table;
     _is_error := _is_error m |}.

Definition with_edits (d : edits_dict) (m : ResultsModel) : ResultsModel :=
  {| _data := _data m; _columns := _columns m;
     _column_types := _column_types m; _edits := d;
     _pk_columns := _pk_columns m; _schema := _schema m; _table := _table m;
     _is_error := _is_error m |}.

(** [clear] *)
Definition clear (m : ResultsModel) : ResultsModel * list Signal :=
  ({| _data := []; _columns := []; _column_types := []; _edits := [];
      _pk_columns := _pk_columns m; _schema := _schema m; _table := _table m;
      _is_error := false |},
   [modelReset; editsChanged 0]).

Definition rowCount (m : ResultsModel) : nat := length (_data m).
Definition columnCount (m : ResultsModel) : nat := length (_columns m).

Definition PG_BOOL : Z := 16.

(** [get_column_type] *)
Definition get_column_type (m : ResultsModel) (col : nat) : Z :=
  default 0%Z (_column_types m !! col).

(** [l[i]] for an index that is not negative *)
Definition item {A : Type} (l : list A) (i : nat) : result A :=
  match l !! i with
  | Some a => Ok a
  | None => Raise IndexError
  end.

(** [row.get(column)] *)
Definition get (r : Row) (column : string) : pyval := default PNone (r !! column).

(** The fetched value of a cell inside the grid; [None] outside. *)
Definition original (m : ResultsModel) (row col : nat) : option pyval :=
  match _data m !! row, _columns m !! col with
  | Some r, Some c => Some (get r c)
  | _, _ => None
  end.

(** [data] *)
Definition data (m : ResultsModel) (index : QModelIndex) (role : Role)
  : QVariant :=
  match index with
  | InvalidIndex => QVal PNone
  | Index row col =>
      match role with
      | DisplayRole =>
          let shown :=
            match edits_get (row, col) (_edits m) with
            | Some v => Some v
            | None => original m row col
            end in
          match shown with
          | Some (PBool b) => QGlyph b
          | Some v => QVal v
          | None => QVal PNone
          end
      | EditRole =>
          match edits_get (row, col) (_edits m) with
          | Some v => QVal v
          | None =>
              match original m row col with
              | Some v => QVal v
              | None => QVal PNone
              end
          end
      | BackgroundRole =>
          if _is_error m then QColor 255 230 230
          else if edits_mem (row, col) (_edits m) then QColor 255 200 150
          else QVal PNone
      | ForegroundRole =>
          if _is_error m then QColor 180 0 0 else QVal PNone
      | TextAlignmentRole =>
          if Z.eqb (get_column_type m col) PG_BOOL
          then QAlignCenter else QVal PNone
      | OtherRole => QVal PNone
      end
  end.

(** [setData]: the model after the write, the signals it emits and the
    value returned. *)
Definition setData (m : ResultsModel) (index : QModelIndex) (value : pyval)
  (role : Role) : result (ResultsModel * list Signal * bool) :=
  match role, index with
  | EditRole, Index row col =>
      r <- item (_data m) row ;;
      c <- item (_columns m) col ;;
      let original := get r c in
      let edits :=
        if py_ne value original
        then edits_set (row, col) value (_edits m)
        else if edits_mem (row, col) (_edits m)
             then edits_del (row, col) (_edits m)
             else _edits m in
      Ok (with_edits edits m,
          [dataChanged index index; editsChanged (length edits)],
          true)
  | _, _ => Ok (m, [], false)
  end.

(** Qt's item flags. *)
Definition ItemIsSelectable : Z := 1.
Definition ItemIsEditable : Z := 2.
Definition ItemIsEnabled : Z := 32.
Definition ItemNeverHasChildren : Z := 128.

(** [QAbstractTableModel.flags], the method [flags] extends. *)
Definition super_flags (index : QModelIndex) : Z :=
  if isValid index
  then Z.lor (Z.lor ItemIsSelectable ItemIsEnabled) ItemNeverHasChildren
  else 0%Z.

(** [flags] *)
Definition flags (m : ResultsModel) (index : QModelIndex) : Z :=
  let flags := super_flags index in
  if Py.truthy_str (_table m) && negb (is_nil (_pk_columns m))
  then Z.lor flags ItemIsEditable
  else flags.

(** A view opens an editor on a cell when its flags carry
    [ItemIsEditable]. *)
Definition accepts_edit (m : ResultsModel) (index : QModelIndex) : bool :=
  Z.testbit (flags m index) 1.

(** [get_pending_edits] *)
Definition get_pending_edits (m : ResultsModel)
  : result (list (list pyval * string * pyval)) :=
  Store.comprehension
    (fun e : coord * pyval =>
       let '((row, col), new_value) := e in
       r <- item (_data m) row ;;
       let pk_values := map (get r) (_pk_columns m) in
       column <- item (_columns m) col ;;
       Ok (pk_values, column, new_value))
    (_edits m).

(** [clear_edits] *)
Definition clear_edits (m : ResultsModel) : ResultsModel * list Signal :=
  (with_edits [] m, [layoutChanged; editsChanged 0]).

Definition has_edits (m : ResultsModel) : bool := negb (is_nil (_edits m)).
Definition edit_count (m : ResultsModel) : nat := length (_edits m).

(** A cell write as a user makes it: a coordinate and a value. *)
Definition write : Type := coord * pyval.

(** A sequence of [setData] calls with [EditRole], one after the other. *)
Fixpoint writes (ws : list write) (m : ResultsModel) : result ResultsModel :=
  match ws with
  | [] => Ok m
  | ((row, col), v) :: rest =>
      r <- setData m (Index row col) v EditRole ;;
      writes rest (fst (fst r))
  end.

(** The last value a sequence of writes put at a coordinate. *)
Fixpoint last_written (k : coord) (ws : list write) : option pyval :=
  match ws with
  | [] => None
  | (k', v) :: rest =>
      match last_written k rest with
      | Some v' => Some v'
      | None => if coord_eqb k' k then Some v else None
      end
  end.

(** The number of entries of the edit dict at a coordinate. *)
Definition entries_at (k : coord) (d : edits_dict) : nat :=
  length (List.filter (fun e => coord_eqb (fst e) k) d).

(** The dict [setData] leaves after writing [v] over the fetched value
    [orig]. *)
Definition edits_after (m : ResultsModel) (k : coord) (v orig : pyval)
  : edits_dict :=
  if py_ne v orig then edits_set k v (_edits m)
  else if edits_mem k (_edits m) then edits_del k (_edits m)
       else _edits m.

(** Every coordinate has at most one entry, as in a dict. *)
Definition unique_keys (d : edits_dict) : Prop :=
  forall k, entries_at k d <= 1.

(** A write lands inside a grid of the given size. *)
Definition in_grid (n_rows n_columns : nat) (w : write) : Prop :=
  fst (fst w) < n_rows /\ snd (fst w) < n_columns.

(** How [data] shows a value under [DisplayRole]. *)
Definition display (v : pyval) : QVariant :=
  match v with
  | PBool b => QGlyph b
  | _ => QVal v
  end.

End Grid.

(** ** ui.py: [MainWindow], commit and rollback *)

Module Window.
Import Value Session Grid.

(** What the window shows or changes on the screen. The slots connected to
    the model's signals are not run here, the signals are only recorded. *)
Inductive UiEvent : Type :=
| Warning (title body : string)
| StatusMessage (msg : string)
| CommitEnabled (b : bool)
| RollbackEnabled (b : bool)
| Emitted (s : Signal).

Definition newline : string := String "010"%char EmptyString.

(** The loop of [_commit_changes] over the pending edits: [errors] collects
    the texts [execute_update] returned that are not empty. *)
Fixpoint run_updates (drv : Driver) (schema table : string)
  (pk_columns : list string) (edits : list (list pyval * string * pyval))
  (errors : list string) (w : World) : result (list string) * World :=
  match edits with
  | [] => (Ok errors, w)
  | (pk_values, column, new_value) :: rest =>
      match execute_update drv schema table pk_columns pk_values
                           column new_value w with
      | (Ok error, w') =>
          let errors' :=
            match error with
            | Some e => if Py.truthy_str e then errors ++ [e] else errors
            | None => errors
            end in
          run_updates drv schema table pk_columns rest errors' w'
      | (Raise e, w') => (Raise e, w')
      end
  end.

Definition committed_ui : list UiEvent :=
  [CommitEnabled false; RollbackEnabled false; StatusMessage "Changes committed"].

(** [MainWindow._commit_changes] *)
Definition _commit_changes (drv : Driver) (m : ResultsModel) (w : World)
  : result (ResultsModel * list UiEvent) * World :=
  if has_edits m
  then
    let schema := _schema m in
    let table := _table m in
    let pk_columns := _pk_columns m in
    if is_nil pk_columns
    then (Ok (m, [Warning "Cannot Update"
                    "No primary key detected. Updates not supported for this query."]),
          w)
    else
      match get_pending_edits m with
      | Raise e => (Raise e, w)
      | Ok edits =>
          match run_updates drv schema table pk_columns edits [] w with
          | (Raise e, w') => (Raise e, w')
          | (Ok [], w') =>
              let '(m', signals) := clear_edits m in
              (Ok (m', map Emitted signals ++ committed_ui), commit w')
          | (Ok (first :: others), w') =>
              (Ok (m, [StatusMessage ("Update failed: " +:+ first);
                       Warning "Update Failed" (join newline (first :: others))]),
               rollback w')
          end
      end
  else (Ok (m, committed_ui), commit w).

(** [MainWindow._rollback_changes] *)
Definition _rollback_changes (m : ResultsModel) (w : World)
  : ResultsModel * list UiEvent * World :=
  let '(m', signals) := clear_edits m in
  (m',
   map Emitted signals ++
   [CommitEnabled false; RollbackEnabled false;
    StatusMessage "Changes rolled back"],
   rollback w).

(** The tabular branch of [_on_query_finished]: the new rows are shown, then
    the model is bound to the table of the query, with the key columns
    [get_primary_keys] found for it, or to no table. *)
Definition show_result (rows : list Row) (columns : list string)
  (column_types : option (list Z)) (schema table : string)
  (pk_columns : list string) (m : ResultsModel) : ResultsModel :=
  let m1 := fst (set_data rows columns column_types m) in
  if Py.truthy_str schema && Py.truthy_str table
  then set_table_info schema table pk_columns m1
  else set_table_info "" "" [] m1.

(** An edit made in the grid: the view opens the delegate's editor on a cell
    only when its flags carry [ItemIsEditable], and the delegate ends with
    [setData]. *)
Definition user_edit (m : ResultsModel) (row col : nat) (value : pyval)
  : result ResultsModel :=
  if accepts_edit m (Index row col)
  then r <- setData m (Index row col) value EditRole ;; Ok (fst (fst r))
  else Ok m.

(** The models the window can be showing: these are all the places where
    the window or the view changes its [ResultsModel]. *)
Inductive shown : ResultsModel -> Prop :=
| shown_new : shown new_model
| shown_result : forall rows columns column_types schema table pk_columns m,
    shown m ->
    shown (show_result rows columns column_types schema table pk_columns m)
| shown_edit : forall m row col value m',
    shown m -> user_edit m row col value = Ok m' -> shown m'
| shown_clear_edits : forall m,
    shown m -> shown (fst (clear_edits m)).

(** The text the window surfaces in its status bar after a failed commit. *)
Fixpoint surfaced_error (ui : list UiEvent) : option string :=
  match ui with
  | [] => None
  | StatusMessage msg :: rest =>
      if String.prefix "Update failed: " msg
      then Some (String.substring 15 (String.length msg - 15) msg)
      else surfaced_error rest
  | _ :: rest => surfaced_error rest
  end.

(** What [execute_update] returns for each pending edit in turn, and the
    world after the last of them. *)
Fixpoint update_returns (drv : Driver) (schema table : string)
  (pk_columns : list string) (edits : list (list pyval * string * pyval))
  (w : World) : list (result (option string)) * World :=
  match edits with
  | [] => ([], w)
  | (pk_values, column, new_value) :: rest =>
      let '(r, w') := execute_update drv schema table pk_columns pk_values
                                     column new_value w in
      let '(rs, w'') := update_returns drv schema table pk_columns rest w' in
      (r :: rs, w'')
  end.

(** The error texts the loop keeps, from what [execute_update] returned. *)
Fixpoint collected (rets : list (result (option string))) : list string :=
  match rets with
  | [] => []
  | Ok (Some e) :: rest =>
      if Py.truthy_str e then e :: collected rest else collected rest
  | _ :: rest => collected rest
  end.

(** The first error among what [execute_update] returned. *)
Fixpoint first_failure (rets : list (result (option string))) : option string :=
  match rets with
  | [] => None
  | Ok (Some e) :: _ => Some e
  | _ :: rest => first_failure rest
  end.

(** The statements the pending edits turn into. *)
Definition edit_stmts (m : ResultsModel)
  (edits : list (list pyval * string * pyval)) : list Stmt :=
  map (fun e : list pyval * string * pyval =>
         let '(pk_values, column, new_value) := e in
         update_stmt (_schema m) (_table m) (_pk_columns m)
                     pk_values column new_value)
      edits.

End Window.

(** ** db.py: saving profiles *)

Module Profiles.
Import Value Store.

(** [to_dict]: [asdict] gives every field under its name. *)
Definition to_dict (c : ConnectionInfo) : gmap string pyval :=
  list_to_map
    [("name", name c); ("host", host c); ("port", port c);
     ("dbname", dbname c); ("user", user c); ("password", password c);
     ("last_connected_at", last_connected_at c)].

(** [save_connections]: the file after [json.dump] of the list of dicts. *)
Definition save_connections (connections : list ConnectionInfo) : store :=
  Doc (JArr (map (fun c => JObj (to_dict c)) connections)).

Definition with_timestamp (stamp : pyval) (c : ConnectionInfo) : ConnectionInfo :=
  {| name := name c; host := host c; port := port c; dbname := dbname c;
     user := user c; password := password c; last_connected_at := stamp |}.

(** The loop of [update_connection_timestamp]: the first profile with the
    name gets the timestamp, then [break]. *)
Fixpoint touch (now : string) (n : pyval) (connections : list ConnectionInfo)
  : list ConnectionInfo :=
  match connections with
  | [] => []
  | conn :: rest =>
      if py_eq (name conn) n
      then with_timestamp (PStr now) conn :: rest
      else conn :: touch now n rest
  end.

(** [update_connection_timestamp]; [now] is [datetime.now().isoformat()]. *)
Definition update_connection_timestamp (now : string) (n : pyval) (s : store)
  : result store :=
  connections <- load_connections s ;;
  Ok (save_connections (touch now n connections)).

(** A profile of the list carries the name. *)
Definition named (n : pyval) (c : ConnectionInfo) : bool := py_eq (name c) n.

End Profiles.

(** ** db.py: the catalogue queries *)

Module Catalogue.
Import Value Store Session.

Definition sql_get_databases : string :=
"
                SELECT datname FROM pg_database
                WHERE datistemplate = false
                ORDER BY datname
            ".

Definition sql_get_schemas : string :=
"
                SELECT schema_name FROM information_schema.schemata
                WHERE schema_name NOT IN ('pg_catalog', 'information_schema', 'pg_toast')
                ORDER BY schema_name
            ".

Definition sql_get_tables : string :=
"
                SELECT table_name FROM information_schema.tables
                WHERE table_schema = %s AND table_type = 'BASE TABLE'
                ORDER BY table_name
            ".

Definition sql_get_all_tables : string :=
"
                SELECT table_schema, table_name 
                FROM information_schema.tables
                WHERE table_schema NOT IN ('pg_catalog', 'information_schema', 'pg_toast')
                  AND table_type = 'BASE TABLE'
                ORDER BY table_schema, table_name
            ".

Definition sql_get_columns : string :=
"
                SELECT column_name FROM information_schema.columns
                WHERE table_schema = %s AND table_name = %s
                ORDER BY ordinal_position
            ".

Definition sql_get_all_columns : string :=
"
                SELECT DISTINCT column_name 
                FROM information_schema.columns
                WHERE table_schema NOT IN ('pg_catalog', 'information_schema', 'pg_toast')
                ORDER BY column_name
            ".

Definition sql_get_primary_keys : string :=
"
                SELECT a.attname
                FROM pg_index i
                JOIN pg_attribute a ON a.attrelid = i.indrelid AND a.attnum = ANY(i.indkey)
                JOIN pg_class c ON c.oid = i.indrelid
                JOIN pg_namespace n ON n.oid = c.relnamespace
                WHERE i.indisprimary AND c.relname = %s AND n.nspname = %s
                ORDER BY array_position(i.indkey, a.attnum)
            ".

(** A statement on a plain cursor. *)
Definition plain (sql : string) (args : list pyval) : Stmt :=
  {| text := sql; params := args; cursor_name := None |}.

(** [row[column]] *)
Definition field (column : string) (r : Row) : result pyval :=
  match r !! column with
  | Some v => Ok v
  | None => Raise KeyError
  end.

(** The body the catalogue methods share: nothing without a connection;
    else the statement on a plain cursor, and one value per fetched row.
    No exception is caught here. *)
Definition column_query (drv : Driver) (sql : string) (args : list pyval)
  (column : string) (w : World) : result (list pyval) * World :=
  match conn (db w) with
  | None => (Ok [], w)
  | Some c =>
      match execute drv (plain sql args) c w with
      | (Ok cur, w') => (comprehension (field column) (fetchall cur), w')
      | (Raise e, w') => (Raise e, w')
      end
  end.

(** [Database.get_databases] *)
Definition get_databases (drv : Driver) (w : World) :=
  column_query drv sql_get_databases [] "datname" w.

(** [Database.get_schemas] *)
Definition get_schemas (drv : Driver) (w : World) :=
  column_query drv sql_get_schemas [] "schema_name" w.

(** [Database.get_tables] *)
Definition get_tables (drv : Driver) (schema : string) (w : World) :=
  column_query drv sql_get_tables [PStr schema] "table_name" w.

(** [Database.get_all_tables] *)
Definition get_all_tables (drv : Driver) (w : World)
  : result (list (pyval * pyval)) * World :=
  match conn (db w) with
  | None => (Ok [], w)
  | Some c =>
      match execute drv (plain sql_get_all_tables []) c w with
      | (Ok cur, w') =>
          (comprehension
             (fun r => s <- field "table_schema" r ;;
                       t <- field "table_name" r ;;
                       Ok (s, t))
             (fetchall cur), w')
      | (Raise e, w') => (Raise e, w')
      end
  end.

(** [Database.get_columns] *)
Definition get_columns (drv : Driver) (schema table : string) (w : World) :=
  column_query drv sql_get_columns [PStr schema; PStr table] "column_name" w.

(** [Database.get_all_columns] *)
Definition get_all_columns (drv : Driver) (w : World) :=
  column_query drv sql_get_all_columns [] "column_name" w.

(** [Database.get_primary_keys]; the table goes first in the parameters. *)
Definition get_primary_keys (drv : Driver) (schema table : string) (w : World) :=
  column_query drv sql_get_primary_keys [PStr table; PStr schema] "attname" w.

End Catalogue.

(** ** ui.py: the query a double click writes *)

Module Tree.
Import Py Value Store Session Catalogue.

(** An identifier between double quotes, as the f-strings of
    [_on_tree_double_click] write it: nothing is escaped. *)
Definition in_quotes (s : string) : string := dqs +:+ s +:+ dqs.

(** The query text [_on_tree_double_click] puts in the editor for a table
    with the given key columns. *)
Definition double_click_query (schema table : string)
  (pk_columns : list string) : string :=
  let query := "SELECT * FROM " +:+ in_quotes schema +:+ "." +:+ in_quotes table in
  match pk_columns with
  | [] => query
  | _ =>
      let order_cols := join ", " (map in_quotes pk_columns) in
      query +:+ " ORDER BY " +:+ order_cols +:+ " ASC"
  end.

(** No double quote in the text. *)
Definition unquoted (s : string) : Prop :=
  forall c, In c (list_ascii_of_string s) -> c <> dq.

(** The session side of [_on_tree_expand] for a node that is not loaded yet:
    switch to the database of the node, read the names of its children with
    [fetch], and connect again with the profile the window remembers, if
    it remembers one. *)
Definition load_children (drv : Driver) (dbname : string)
  (_original_info : option ConnectionInfo)
  (fetch : World -> result (list pyval) * World) (w : World)
  : result (list pyval) * World :=
  match switch_database drv dbname w with
  | (Raise e, w1) => (Raise e, w1)
  | (Ok _, w1) =>
      match fetch w1 with
      | (Raise e, w2) => (Raise e, w2)
      | (Ok names, w2) =>
          match _original_info with
          | Some i =>
              match connect drv i w2 with
              | (Raise e, w3) => (Raise e, w3)
              | (Ok _, w3) => (Ok names, w3)
              end
          | None => (Ok names, w2)
          end
      end
  end.

(** [_on_tree_expand] on a database node: its schemas. *)
Definition expand_database (drv : Driver) (dbname : string)
  (_original_info : option ConnectionInfo) (w : World) :=
  load_children drv dbname _original_info (get_schemas drv) w.

(** [_on_tree_expand] on a schema node: its tables. *)
Definition expand_schema (drv : Driver) (dbname schema : string)
  (_original_info : option ConnectionInfo) (w : World) :=
  load_children drv dbname _original_info (get_tables drv schema) w.

End Tree.

(** ** ui.py: before a query starts *)

Module Execution.
Import Py Value Session Grid Window Resolver.

(** The answer to a Yes/No message box. *)
Inductive Reply : Type := Yes | No.

(** [MainWindow._check_uncommitted_changes]; [reply] is what the user
    answers when the box is shown. *)
Definition _check_uncommitted_changes (reply : Reply) (m : ResultsModel)
  (w : World) : bool * ResultsModel * World * list UiEvent :=
  if has_edits m
  then
    let asked :=
      Warning "Uncommitted Changes"
        ("You have " +:+ decimal (Z.of_nat (edit_count m)) +:+
         " uncommitted cell edit(s)." +:+ newline +:+ newline +:+
         "Opening a new table will discard these changes." +:+
         newline +:+ newline +:+ "Do you want to continue?") in
    match reply with
    | No => (false, m, w, [asked])
    | Yes =>
        let '(m', signals) := clear_edits m in
        (true, m', rollback w,
         asked :: map Emitted signals ++
         [CommitEnabled false; RollbackEnabled false])
    end
  else (true, m, w, []).

(** What [_execute_query] hands to the worker, with the table binding it
    keeps for the result. *)
Record Request : Type := {
  query : string;
  _pending_schema : string;
  _pending_table : string
}.

(** [MainWindow._execute_query], up to the start of the worker: [running]
    says whether a worker is still running, [editor_text] is the text of the
    editor. No request means the method returned early. *)
Definition _execute_query (running : bool) (editor_text : string)
  (reply : Reply) (schema table : string) (m : ResultsModel) (w : World)
  : option Request * ResultsModel * World * list UiEvent :=
  if negb (is_connected (db w))
  then (None, m, w, [StatusMessage "Not connected"])
  else if running
  then (None, m, w, [StatusMessage "Query already running..."])
  else
    let query := strip editor_text in
    if is_empty query
    then (None, m, w, [StatusMessage "No query to execute"])
    else
      let is_select := startswith "SELECT" (upper query) in
      let '(ok, m1, w1, ui1) :=
        if is_select && has_edits m
        then _check_uncommitted_changes reply m w
        else (true, m, w, []) in
      if ok
      then
        let '(schema', table') :=
          if negb (truthy_str table) && is_select
          then _parse_table_from_query query
          else (schema, table) in
        (Some {| query := query; _pending_schema := schema';
                 _pending_table := table' |},
         m1, w1, ui1 ++ [StatusMessage "Executing..."])
      else (None, m1, w1, ui1).

End Execution.

(** ** ui.py: [SqlEditor], the completion list *)

Module Editor.
Import Py.

Definition lower_char (c : ascii) : ascii :=
  if is_upper c then ascii_of_N (code c + 32) else c.

(** [s.lower()] *)
Fixpoint lower (s : string) : string :=
  match s with
  | EmptyString => EmptyString
  | String c r => String (lower_char c) (lower r)
  end.

Definition _keywords : list string :=
  ["SELECT"; "FROM"; "WHERE"; "AND"; "OR"; "NOT"; "IN"; "LIKE"; "ILIKE";
   "ORDER BY"; "GROUP BY"; "HAVING"; "LIMIT"; "OFFSET"; "JOIN"; "LEFT JOIN";
   "RIGHT JOIN"; "INNER JOIN"; "OUTER JOIN"; "ON"; "AS"; "DISTINCT";
   "INSERT INTO"; "VALUES"; "UPDATE"; "SET"; "DELETE FROM"; "CREATE TABLE";
   "ALTER TABLE"; "DROP TABLE"; "NULL"; "IS NULL"; "IS NOT NULL";
   "ASC"; "DESC"; "COUNT"; "SUM"; "AVG"; "MIN"; "MAX"; "BETWEEN"; "CASE";
   "WHEN"; "THEN"; "ELSE"; "END"; "COALESCE"; "CAST"; "TRUE"; "FALSE"].

(** The completion data of a [SqlEditor]. *)
Record SqlEditor : Type := {
  _tables : list string;        (* schema.table *)
  _table_names : list string;
  _columns : list string
}.

(** The data of [SqlEditor()]. *)
Definition new_editor : SqlEditor :=
  {| _tables := []; _table_names := []; _columns := [] |}.


(** The loop that removes duplicates and keeps the order; [seen] holds the
    lower-cased texts met so far. *)
Fixpoint unique (seen : list string) (completions : list string) : list string :=
  match completions with
  | [] => []
  | c :: rest =>
      if existsb (String.eqb (lower c)) seen
      then unique seen rest
      else c :: unique (lower c :: seen) rest
  end.

(** The list [completions] that [_update_completions] builds for a word. *)
Definition completions (e : SqlEditor) (word : string) : list string :=
  let word_upper := upper word in
  let word_lower := lower word in
  List.filter (fun kw => contains word_upper kw) _keywords ++
  List.filter (fun table => contains word_lower (lower table)) (_table_names e) ++
  List.filter (fun table => contains word_lower (lower table)) (_tables e) ++
  List.filter (fun col => contains word_lower (lower col)) (_columns e).

(** [_update_completions] for the word under the cursor: the list handed to
    the completer, or nothing when the popup is hidden. *)
Definition _update_completions (e : SqlEditor) (word : string)
  : option (list string) :=
  if (String.length word <? 1)%nat
  then None
  else
    match completions e word with
    | [] => None
    | cs => Some (firstn 20 (unique [] cs))
    end.

End Editor.

(** ** ui.py: [ConnectionDialog], the list of profiles *)

Module Dialog.
Import Py Value Store Profiles.

(** The fields of the form. *)
Record Form : Type := {
  name_edit : string;
  host_edit : string;
  port_spin : Z;
  dbname_edit : string;
  user_edit : string;
  password_edit : string
}.

(** [_get_current_info] *)
Definition _get_current_info (f : Form) : ConnectionInfo :=
  {| name := PStr (if truthy_str (name_edit f) then name_edit f else "Unnamed");
     host := PStr (host_edit f);
     port := PInt (port_spin f);
     dbname := PStr (dbname_edit f);
     user := PStr (user_edit f);
     password := PStr (password_edit f);
     last_connected_at := PNone |}.

(** The loop of [_save_connection] that looks for a profile of the same
    name: the index of the first one. *)
Fixpoint existing_idx (n : pyval) (connections : list ConnectionInfo)
  : option nat :=
  match connections with
  | [] => None
  | c :: rest =>
      if py_eq (name c) n then Some 0
      else option_map S (existing_idx n rest)
  end.

(** [_save_connection], without the combo box: the list of the dialog and
    the file after the call. *)
Definition _save_connection (f : Form) (connections : list ConnectionInfo)
  : list ConnectionInfo * store :=
  let info := _get_current_info f in
  let connections' :=
    match existing_idx (name info) connections with
    | Some i => <[i := info]> connections
    | None => connections ++ [info]
    end in
  (connections', save_connections connections').

(** [_delete_connection], without the combo box; [idx] is the current index
    of the combo box, whose first entry stands for a new connection. *)
Definition _delete_connection (idx : Z) (connections : list ConnectionInfo)
  (s : store) : result (list ConnectionInfo * store) :=
  if (0 <? idx)%Z
  then
    let i := Z.to_nat (idx - 1) in
    if (i <? length connections)%nat
    then
      let connections' := delete i connections in
      Ok (connections', save_connections connections')
    else Raise IndexError
  else Ok (connections, s).

End Dialog.

(** ** Concrete sessions and stores, for the examples below *)

Module Samples.
Import Value Store Session Grid.


Definition empty_cursor : Cursor :=
  {| description := None; fetchall := []; cur_rowcount := 1 |}.

(** A server that accepts everything. *)
Definition willing : Driver :=
  {| pg_connect := fun _ => None;
     pg_execute := fun _ _ _ => Done empty_cursor |}.

(** A server that refuses connections and statements. *)
Definition unwilling : Driver :=
  {| pg_connect := fun _ => Some "connection refused";
     pg_execute := fun _ _ _ => Failed "permission denied" |}.

Definition remote_profile : ConnectionInfo :=
  {| name := PStr "remote"; host := PStr "10.0.0.7"; port := PInt 5432;
     dbname := PStr "sales"; user := PStr "postgres";
     password := PStr ""; last_connected_at := PNone |}.

Definition local_profile : ConnectionInfo :=
  {| name := PStr "local"; host := PStr "localhost"; port := PInt 5432;
     dbname := PStr "postgres"; user := PStr "postgres";
     password := PStr ""; last_connected_at := PNone |}.

(** A server that can be reached on localhost only. *)
Definition picky : Driver :=
  {| pg_connect := fun conninfo =>
       if String.prefix "host=localhost " conninfo
       then None else Some "no route to host";
     pg_execute := fun _ _ _ => Done empty_cursor |}.

Definition profile (n : string) (stamp : pyval) : ConnectionInfo :=
  {| name := PStr n; host := PStr "localhost"; port := PInt 5432;
     dbname := PStr "postgres"; user := PStr "postgres";
     password := PStr ""; last_connected_at := stamp |}.

Definition record (n : string) (stamp : option string) : json :=
  let d : gmap string pyval := {[ "name" := PStr n ]} in
  JObj match stamp with
       | Some t => <["last_connected_at" := PStr t]> d
       | None => d
       end.

(** A store with three profiles: one never used, two used on different days. *)
Definition three_profiles : store :=
  Doc (JArr [record "legacy" None;
             record "staging" (Some "2024-03-01T09:30:00");
             record "production" (Some "2024-05-17T18:02:11.250000")]).

Definition three_loaded : list ConnectionInfo :=
  [profile "legacy" PNone;
   profile "staging" (PStr "2024-03-01T09:30:00");
   profile "production" (PStr "2024-05-17T18:02:11.250000")].

(** A store whose only record has no [name]. *)
Definition nameless_record : store :=
  Doc (JArr [JObj {[ "host" := PStr "db1" ]}]).

(** A store that holds one record, not wrapped in a list. *)
Definition bare_record : store :=
  Doc (JObj {[ "name" := PStr "local" ]}).

Definition two_rows : list (gmap string pyval) :=
  [ {[ "id" := PInt 1; "qty" := PInt 5 ]};
    {[ "id" := PInt 2; "qty" := PInt 7 ]} ].

(** A result of one column called [Error], read from a table with a key. *)
Definition error_named_column : ResultsModel :=
  set_table_info "public" "log" ["id"]
    (fst (set_data [ {[ "Error" := PStr "disk full" ]} ] ["Error"] None new_model)).

(** The two rows, read from a table with the key [id]. *)
Definition shown_grid : ResultsModel :=
  Window.show_result two_rows ["id"; "qty"] None "public" "items" ["id"] new_model.

(** The same grid after two cells were edited. *)
Definition edited_grid : ResultsModel :=
  with_edits [((0, 1), PInt 6); ((1, 1), PInt 9)] shown_grid.

Definition quiet : Server := {| durable := []; trace := [] |}.

Definition fresh : World := {| db := init; srv := quiet |}.

Definition open_connection : Connection := {| closed := false; txn := [] |}.

Definition online : World :=
  {| db := {| conn := Some open_connection; info := Some local_profile |};
     srv := quiet |}.

(** Two profiles used at the same moment, then a third used earlier. *)
Definition tied_profiles : list ConnectionInfo :=
  [profile "alpha" (PStr "2024-05-17T18:02:11");
   profile "beta" (PStr "2024-05-17T18:02:11");
   profile "gamma" (PStr "2024-01-01T00:00:00")].

Definition one_row_cursor : Cursor :=
  {| description := Some [("id", 23%Z)];
     fetchall := [ {[ "id" := PInt 1 ]} ];
     cur_rowcount := 1 |}.

(** A server that answers every statement with one row. *)
Definition returning : Driver :=
  {| pg_connect := fun _ => None;
     pg_execute := fun _ _ _ => Done one_row_cursor |}.

(** A session with a statement executed and not committed. *)
Definition unsaved_work : World :=
  {| db := {| conn := Some {| closed := false;
                              txn := [Catalogue.plain "DELETE FROM items" []] |};
              info := Some local_profile |};
     srv := quiet |}.

End Samples.

(** * Properties *)

(** ** The resolver *)

Section ResolverFacts.
Import Py Re Resolver.

(** C5: a text whose upper-cased form contains [ JOIN ] between blanks is
    not resolved: the resolver answers with two empty strings. *)
Theorem join_is_refused (query : string) :
  contains " JOIN " (upper query) = true ->
  _parse_table_from_query query = ("", "").
Proof.
  intros Hjoin. unfold _parse_table_from_query.
  now rewrite Hjoin.
Qed.

Lemma join_is_refused_witness :
  contains " JOIN " (upper "select * from a join b on a.x = b.x") = true /\
  _parse_table_from_query "select * from a join b on a.x = b.x" = ("", "").
Proof.
  split; [ reflexivity | apply join_is_refused; reflexivity ].
Defined.

(** Without a JOIN the resolver answers from the first pattern of the list
    that matches: the two groups for the first two patterns, [public] and the
    one group for the last two, two empty strings when none matches. *)
Lemma try_patterns_first_match (i : nat) (ps : list re) (query : string) :
  try_patterns i ps query =
  match first_match i ps query with
  | Some (j, m) =>
      if Nat.ltb j 2 then (group 1 m, group 2 m) else ("public", group 1 m)
  | None => ("", "")
  end.
Proof.
  revert i. induction ps as [| p ps IH]; intros i; simpl.
  - reflexivity.
  - destruct (search p query); [ reflexivity | apply IH ].
Qed.

Lemma first_match_earliest (ps : list re) (query : string) :
  forall i j m,
    first_match i ps query = Some (j, m) ->
    exists p, ps !! (j - i) = Some p /\ search p query = Some m /\ i <= j /\
      forall k q, k < j - i -> ps !! k = Some q -> search q query = None.
Proof.
  induction ps as [| p ps IH]; intros i j m H; simpl in H.
  - discriminate.
  - destruct (search p query) as [m' |] eqn:Hs.
    + inversion H; subst. exists p. rewrite Nat.sub_diag.
      repeat split; auto. intros k q Hk. lia.
    + apply IH in H as (p' & Hp' & Hm & Hle & Hbefore).
      exists p'. replace (j - i) with (S (j - S i)) by lia.
      repeat split; auto; try lia.
      intros [| k] q Hk Hq; simpl in Hq.
      * now inversion Hq; subst.
      * apply (Hbefore k q); [ lia | assumption ].
Qed.

(** C6: the three texts of the specification resolve as stated; a single
    identifier, quoted or bare, goes to schema [public]; the four patterns
    are tried in the order quoted schema.table, bare schema.table, quoted
    table, bare table, and the first that matches decides. *)
Theorem resolver_round_trip :
  _parse_table_from_query quoted_s_t = ("s", "t") /\
  _parse_table_from_query "SELECT * FROM t" = ("public", "t") /\
  _parse_table_from_query quoted_t = ("public", "t") /\
  _parse_table_from_query "SELECT * FROM a.b WHERE x=1" = ("a", "b") /\
  patterns = [pat_quoted_schema_table; pat_bare_schema_table;
              pat_quoted_table; pat_bare_table] /\
  (forall query,
      contains " JOIN " (upper query) = false ->
      match first_match 0 patterns query with
      | Some (j, m) =>
          (exists p, patterns !! j = Some p /\ search p query = Some m /\
             forall k q, k < j -> patterns !! k = Some q ->
                         search q query = None) /\
          _parse_table_from_query query =
            (if Nat.ltb j 2 then (group 1 m, group 2 m)
             else ("public", group 1 m))
      | None =>
          (forall q, In q patterns -> search q query = None) /\
          _parse_table_from_query query = ("", "")
      end) /\
  (* both a schema.table pattern and a table pattern match here *)
  search pat_bare_schema_table "SELECT * FROM a . b" <> None /\
  search pat_bare_table "SELECT * FROM a . b" <> None /\
  _parse_table_from_query "SELECT * FROM a . b" = ("a", "b").
Proof.
  repeat split; try (vm_compute; (reflexivity || discriminate)).
  intros query Hjoin. unfold _parse_table_from_query. rewrite Hjoin.
  rewrite try_patterns_first_match.
  destruct (first_match 0 patterns query) as [[j m] |] eqn:Hfm.
  - split; [| reflexivity ].
    apply first_match_earliest in Hfm as (p & Hp & Hm & _ & Hbefore).
    rewrite Nat.sub_0_r in *. exists p. auto.
  - split; [| reflexivity ].
    unfold patterns in *. simpl in Hfm.
    repeat match type of Hfm with
           | context [search ?p query] =>
               destruct (search p query) eqn:?; [ discriminate |]
           end.
    intros q [<- | [<- | [<- | [<- | []]]]]; assumption.
Qed.

End ResolverFacts.

(** ** Text *)

Section TextFacts.
Import Py.

Lemma upper_app (a b : string) : upper (a +:+ b) = upper a +:+ upper b.
Proof.
  induction a as [| c a IH]; simpl; [ reflexivity | now rewrite IH ].
Qed.

Lemma prefix_empty (s : string) : String.prefix "" s = true.
Proof. now destruct s. Qed.

Lemma clean_tail P a p : clean P (String a p) -> clean P p.
Proof. intros H c Hc Hin. apply (H c Hc). now right. Qed.

Lemma clean_head P a p c : clean P (String a p) -> P c = true -> a <> upper_char c.
Proof. intros H Hc ->. apply (H c Hc). now left. Qed.

Lemma prefix_head_out (a : ascii) (p : string) (x : ascii) (s : string) :
  a <> x -> String.prefix (String a p) (String x s) = false.
Proof. intros Hne. simpl. destruct (ascii_dec a x); [ contradiction | reflexivity ]. Qed.

Lemma prefix_upper_rstrip (P : ascii -> bool) (p s : string) :
  clean P p ->
  String.prefix p (upper (rstrip P s)) = String.prefix p (upper s).
Proof.
  revert p. induction s as [| c r IH]; intros p Hp; [ reflexivity |].
  destruct p as [| a p']; [ now rewrite !prefix_empty |].
  cbn [rstrip].
  destruct (is_empty (rstrip P r) && P c) eqn:Hdrop.
  - apply andb_true_iff in Hdrop as [_ Hc].
    cbn [upper]. rewrite prefix_head_out by eauto using clean_head.
    reflexivity.
  - cbn [upper String.prefix].
    destruct (ascii_dec a (upper_char c)); [| reflexivity ].
    apply IH. eauto using clean_tail.
Qed.

Lemma contains_upper_rstrip (P : ascii -> bool) (a : ascii) (p s : string) :
  clean P (String a p) ->
  contains (String a p) (upper (rstrip P s)) = contains (String a p) (upper s).
Proof.
  intros Hp. induction s as [| c r IH]; [ reflexivity |].
  cbn [rstrip].
  destruct (is_empty (rstrip P r) && P c) eqn:Hdrop.
  - apply andb_true_iff in Hdrop as [Hempty Hc].
    destruct (rstrip P r) eqn:Hr; [| discriminate ].
    cbn [upper contains]. rewrite <- IH.
    rewrite prefix_head_out by eauto using clean_head.
    reflexivity.
  - cbn [upper contains]. rewrite IH. f_equal.
    change (String (upper_char c) (upper (rstrip P r)))
      with (upper (String c (rstrip P r))).
    cbn [upper String.prefix].
    destruct (ascii_dec a (upper_char c)); [| reflexivity ].
    apply prefix_upper_rstrip. eauto using clean_tail.
Qed.

Lemma contains_upper_lstrip (P : ascii -> bool) (a : ascii) (p s : string) :
  clean P (String a p) ->
  contains (String a p) (upper (lstrip P s)) = contains (String a p) (upper s).
Proof.
  intros Hp. induction s as [| c r IH]; [ reflexivity |].
  cbn [lstrip]. destruct (P c) eqn:Hc; [| reflexivity ].
  rewrite IH. cbn [upper contains].
  rewrite prefix_head_out by eauto using clean_head.
  reflexivity.
Qed.

Lemma limit_clean_space : clean is_space "LIMIT".
Proof.
  intros c Hc Hin. revert Hc Hin.
  destruct c as [[] [] [] [] [] [] [] []]; vm_compute; intros Hc Hin;
    try discriminate; intuition discriminate.
Qed.

Lemma limit_clean_semicolon : clean Session.is_semicolon "LIMIT".
Proof.
  intros c Hc Hin. revert Hc Hin.
  destruct c as [[] [] [] [] [] [] [] []]; vm_compute; intros Hc Hin;
    try discriminate; intuition discriminate.
Qed.

(** Trimming neither removes nor creates an occurrence of LIMIT. *)
Lemma contains_limit_trimmed (query : string) :
  contains "LIMIT" (upper (rstrip Session.is_semicolon (strip query))) =
  contains "LIMIT" (upper query).
Proof.
  unfold strip.
  rewrite (contains_upper_rstrip _ _ _ _ limit_clean_semicolon).
  rewrite (contains_upper_rstrip _ _ _ _ limit_clean_space).
  apply (contains_upper_lstrip _ _ _ _ limit_clean_space).
Qed.

Lemma prefix_app_out (p s : string) (c : ascii) (t : string) :
  ~ In c (list_ascii_of_string p) ->
  String.prefix p (s +:+ String c t) = String.prefix p s.
Proof.
  revert s. induction p as [| a p IH]; intros s Hc;
    [ now rewrite !prefix_empty |].
  destruct s as [| x s]; simpl.
  - destruct (ascii_dec a c) as [-> |]; [| reflexivity ].
    exfalso. apply Hc. now left.
  - destruct (ascii_dec a x); [| reflexivity ].
    apply IH. intros Hin. apply Hc. now right.
Qed.

Lemma occurrences_none (p s : string) :
  contains p s = false -> occurrences p s = 0.
Proof.
  induction s as [| c s IH]; simpl; intros H;
    apply orb_false_iff in H as [-> H]; [ reflexivity |].
  now rewrite IH.
Qed.

Lemma occurrences_app_out (a : ascii) (p s : string) (c : ascii) (t : string) :
  ~ In c (list_ascii_of_string (String a p)) ->
  occurrences (String a p) (s +:+ String c t) =
  occurrences (String a p) s + occurrences (String a p) (String c t).
Proof.
  intros Hc. induction s as [| x s IH].
  - reflexivity.
  - change (String x s +:+ String c t) with (String x (s +:+ String c t)).
    set (k := occurrences (String a p) (String c t)) in *.
    cbn [occurrences]. rewrite IH.
    change (String x (s +:+ String c t)) with (String x s +:+ String c t).
    rewrite prefix_app_out by assumption. lia.
Qed.

End TextFacts.

(** ** The session *)

Section SessionFacts.
Import Py Value Store Session.

Lemma sent_texts_app (a b : list Event) :
  sent_texts (a ++ b) = sent_texts a ++ sent_texts b.
Proof.
  induction a as [| e a IH]; simpl; [ reflexivity |].
  destruct e; simpl; now rewrite ?IH.
Qed.

(** The text [prepare] builds, case by case. *)
Lemma prepare_cases (query : string) :
  let trimmed := rstrip is_semicolon (strip query) in
  fst (prepare query) = startswith "SELECT" (upper trimmed) /\
  (startswith "SELECT" (upper trimmed) = true ->
   contains "LIMIT" (upper query) = false ->
   snd (prepare query) = trimmed +:+ " LIMIT 1000" /\
   occurrences "LIMIT" (upper (snd (prepare query))) = 1) /\
  (startswith "SELECT" (upper trimmed) = true ->
   contains "LIMIT" (upper query) = true ->
   snd (prepare query) = trimmed) /\
  (startswith "SELECT" (upper trimmed) = false ->
   snd (prepare query) = trimmed).
Proof.
  intros trimmed. unfold prepare.
  rewrite (contains_limit_trimmed query). fold trimmed.
  assert (Hone : contains "LIMIT" (upper query) = false ->
                 occurrences "LIMIT" (upper (trimmed +:+ " LIMIT 1000")) = 1).
  { intros Hlim. rewrite upper_app.
    change (upper " LIMIT 1000") with (String " "%char "LIMIT 1000").
    rewrite occurrences_app_out.
    - rewrite occurrences_none; [ reflexivity |].
      unfold trimmed. now rewrite contains_limit_trimmed.
    - vm_compute. intuition discriminate. }
  destruct (startswith "SELECT" (upper trimmed)) eqn:Hsel;
    destruct (contains "LIMIT" (upper query)) eqn:Hlim; cbn [andb negb fst snd];
    (split; [ reflexivity |]); (split; [| split ]); intros; try discriminate;
    try reflexivity.
  split; [ reflexivity | now apply Hone ].
Qed.

(** What [execute_query] hands to the cursor on an open connection is the
    text [prepare] built, once. *)
Lemma execute_query_sends (drv : Driver) (query : string) (w : World)
  (c : Connection) :
  conn (db w) = Some c ->
  sent_texts (trace (srv (snd (execute_query drv query w)))) =
  sent_texts (trace (srv w)) ++ [snd (prepare query)].
Proof.
  intros Hc. unfold execute_query. rewrite Hc.
  destruct (prepare query) as [is_select stmt]. cbn [snd].
  unfold execute.
  destruct is_select;
    match goal with
    | |- context [pg_execute ?d ?a ?b ?s] => destruct (pg_execute d a b s)
    end;
    cbn; unfold rollback; cbn; rewrite ?Hc; cbn;
    rewrite ?sent_texts_app; cbn; rewrite ?app_nil_r; reflexivity.
Qed.

(** C2: on an open connection [execute_query] sends one statement. When the
    trimmed text starts with SELECT in any case and the text holds no LIMIT
    in any case, the statement is the trimmed text followed by one
    [ LIMIT 1000]; when the text holds a LIMIT already, it is the trimmed
    text; a text that is not taken for a SELECT is sent trimmed, with no
    LIMIT added. *)
Theorem implicit_row_limit (drv : Driver) (query : string) (w : World)
  (c : Connection) :
  conn (db w) = Some c ->
  let trimmed := rstrip is_semicolon (strip query) in
  let w' := snd (execute_query drv query w) in
  exists stmt,
    sent_texts (trace (srv w')) = sent_texts (trace (srv w)) ++ [stmt] /\
    (startswith "SELECT" (upper trimmed) = true ->
     contains "LIMIT" (upper query) = false ->
     stmt = trimmed +:+ " LIMIT 1000" /\
     occurrences "LIMIT" (upper stmt) = 1) /\
    (startswith "SELECT" (upper trimmed) = true ->
     contains "LIMIT" (upper query) = true ->
     stmt = trimmed) /\
    (startswith "SELECT" (upper trimmed) = false ->
     stmt = trimmed).
Proof.
  intros Hc trimmed w'. exists (snd (prepare query)). split.
  - apply (execute_query_sends drv query w c Hc).
  - apply prepare_cases.
Qed.

End SessionFacts.

Section SessionContract.
Import Py Value Store Session Samples.

Lemma implicit_row_limit_witness :
  conn (db online) = Some open_connection /\
  exists stmt,
    sent_texts (trace (srv (snd (execute_query willing " select 1 ;" online)))) =
    sent_texts (trace (srv online)) ++ [stmt] /\
    stmt = "select 1  LIMIT 1000".
Proof.
  split; [ reflexivity |].
  destruct (implicit_row_limit willing " select 1 ;" online open_connection
              eq_refl) as (stmt & Hsent & Hadd & _ & _).
  exists stmt. split; [ exact Hsent |].
  exact (proj1 (Hadd eq_refl eq_refl)).
Defined.

(** C4: [execute_update] never raises. On an open connection: with an
    empty list of key columns it returns the no-primary-key error and executes
    nothing; when the statement fails it rolls the transaction back and
    returns the error text; when it succeeds it returns no error and the
    statement stays in the open transaction, nothing is committed. With no
    connection open it fails fast, as every operation of the session does:
    it returns [Not connected] and does nothing. *)
Theorem execute_update_contract (drv : Driver) (schema table : string)
  (pk_columns : list string) (pk_values : list pyval) (column : string)
  (value : pyval) (w : World) :
  let call := execute_update drv schema table pk_columns pk_values column value w in
  let stmt := update_stmt schema table pk_columns pk_values column value in
  (exists r, fst call = Ok r) /\
  (conn (db w) = None -> call = (Ok (Some "Not connected"), w)) /\
  (forall c, conn (db w) = Some c ->
     (pk_columns = [] ->
      call = (Ok (Some "No primary key - cannot update"), w)) /\
     (pk_columns <> [] -> forall msg,
      pg_execute drv (durable (srv w)) (txn c) stmt = Failed msg ->
      fst call = Ok (Some msg) /\
      pending (snd call) = [] /\
      conn (db (snd call)) = Some {| closed := closed c; txn := [] |} /\
      durable (srv (snd call)) = durable (srv w) /\
      trace (srv (snd call)) = trace (srv w) ++ [EvExecute stmt; EvRollback]) /\
     (pk_columns <> [] -> forall cur,
      pg_execute drv (durable (srv w)) (txn c) stmt = Done cur ->
      fst call = Ok None /\
      conn (db (snd call)) = Some {| closed := closed c; txn := txn c ++ [stmt] |} /\
      durable (srv (snd call)) = durable (srv w) /\
      trace (srv (snd call)) = trace (srv w) ++ [EvExecute stmt])).
Proof.
  intros call stmt. subst call. unfold execute_update.
  destruct (conn (db w)) as [c |] eqn:Hc.
  - destruct pk_columns as [| pk pks].
    + split; [ eexists; reflexivity |]. split; [ discriminate |].
      intros c' Hc'. repeat split; congruence.
    + fold stmt. unfold execute.
      destruct (pg_execute drv (durable (srv w)) (txn c) stmt) as [cur | msg] eqn:Hx.
      * split; [ eexists; reflexivity |]. split; [ discriminate |].
        intros c' Hc'. inversion Hc'; subst c'. rewrite Hx.
        split; [ discriminate |]. split; [ discriminate |].
        intros _ cur' Hcur. cbn. repeat split; reflexivity.
      * split; [ eexists; reflexivity |]. split; [ discriminate |].
        intros c' Hc'. inversion Hc'; subst c'. rewrite Hx.
        split; [ discriminate |]. split; [| discriminate ].
        intros _ msg' Hmsg. inversion Hmsg; subst msg'.
        unfold rollback, pending. cbn. rewrite Hc. cbn.
        rewrite <- app_assoc. repeat split; reflexivity.
  - split; [ eexists; reflexivity |]. split; [ reflexivity |].
    intros c Hc'. discriminate.
Qed.

Lemma execute_update_contract_witness :
  conn (db online) = Some open_connection /\
  execute_update willing "public" "items" [] [] "qty" (PInt 6) online =
    (Ok (Some "No primary key - cannot update"), online) /\
  (fst (execute_update unwilling "public" "items" ["id"] [PInt 1] "qty"
          (PInt 6) online) = Ok (Some "permission denied") /\
   pending (snd (execute_update unwilling "public" "items" ["id"] [PInt 1]
                   "qty" (PInt 6) online)) = []) /\
  (fst (execute_update willing "public" "items" ["id"] [PInt 1] "qty"
          (PInt 6) online) = Ok None /\
   durable (srv (snd (execute_update willing "public" "items" ["id"] [PInt 1]
                        "qty" (PInt 6) online))) = durable (srv online)).
Proof.
  split; [ reflexivity |]. split; [| split ].
  - pose proof (execute_update_contract willing "public" "items" [] []
                  "qty" (PInt 6) online) as H.
    cbv zeta in H. destruct H as (_ & _ & H).
    destruct (H open_connection eq_refl) as (Hnil & _).
    apply Hnil. reflexivity.
  - pose proof (execute_update_contract unwilling "public" "items" ["id"]
                  [PInt 1] "qty" (PInt 6) online) as H.
    cbv zeta in H. destruct H as (_ & _ & H).
    destruct (H open_connection eq_refl) as (_ & Hfail & _).
    assert (Hne : ["id"] <> @nil string) by discriminate.
    destruct (Hfail Hne "permission denied" eq_refl) as (Hr & Hp & _).
    split; [ exact Hr | exact Hp ].
  - pose proof (execute_update_contract willing "public" "items" ["id"]
                  [PInt 1] "qty" (PInt 6) online) as H.
    cbv zeta in H. destruct H as (_ & _ & H).
    destruct (H open_connection eq_refl) as (_ & _ & Hok).
    assert (Hne : ["id"] <> @nil string) by discriminate.
    destruct (Hok Hne empty_cursor eq_refl) as (Hr & _ & Hd & _).
    split; [ exact Hr | exact Hd ].
Defined.

(** The attributes of a session go together: without a connection there is
    no active profile. *)
Lemma reachable_info (drv : Driver) (w : World) :
  reachable drv w -> conn (db w) = None -> info (db w) = None.
Proof.
  assert (Hconnect : forall i w0,
             (conn (db w0) = None -> info (db w0) = None) ->
             conn (db (snd (connect drv i w0))) = None ->
             info (db (snd (connect drv i w0))) = None).
  { intros i w0 IH. unfold connect, disconnect.
    destruct (conn (db w0)) eqn:E; destruct (pg_connect drv _); cbn;
      rewrite ?E; intros; try discriminate; auto. }
  induction 1 as [s | w i Hw IH | w Hw IH | w Hw IH | w Hw IH | w n Hw IH
                 | w q Hw IH | w s t pks pvs c v Hw IH | w c s Hw IH Hc].
  - reflexivity.
  - apply Hconnect; assumption.
  - unfold disconnect. destruct (conn (db w)) eqn:E; cbn; auto.
  - unfold commit. destruct (conn (db w)) eqn:E; cbn; auto; discriminate.
  - unfold rollback. destruct (conn (db w)) eqn:E; cbn; auto; discriminate.
  - unfold switch_database. destruct (info (db w)) eqn:Ei.
    + apply Hconnect. rewrite Ei. exact IH.
    + cbn. auto.
  - unfold execute_query. destruct (conn (db w)) eqn:E; cbn; auto.
    destruct (prepare q) as [sel st]. unfold execute.
    destruct sel;
      match goal with
      | |- context [pg_execute ?d ?a ?b ?x] => destruct (pg_execute d a b x)
      end; cbn; unfold rollback; cbn; rewrite ?E; cbn; discriminate.
  - unfold execute_update. destruct (conn (db w)) eqn:E; cbn; auto.
    destruct pks; cbn; [ rewrite E; discriminate |].
    unfold execute.
    match goal with
    | |- context [pg_execute ?d ?a ?b ?x] => destruct (pg_execute d a b x)
    end; cbn; unfold rollback; cbn; rewrite ?E; cbn; discriminate.
  - unfold execute.
    destruct (pg_execute drv (durable (srv w)) (txn c) s); cbn;
      rewrite ?Hc; discriminate.
Qed.

(** C10: when opening the new connection raises, [connect] raises and the
    session is left disconnected: the connection it held was closed before
    the attempt, the connection handle and the active profile are both
    absent, [is_connected] answers false. *)
Theorem failed_connect_disconnects (drv : Driver) (i : ConnectionInfo)
  (w : World) (msg : string) :
  reachable drv w ->
  pg_connect drv (connection_string i) = Some msg ->
  let w' := snd (connect drv i w) in
  fst (connect drv i w) = Raise (PsycopgError msg) /\
  conn (db w') = None /\
  info (db w') = None /\
  is_connected (db w') = false /\
  trace (srv w') =
    trace (srv w) ++
    match conn (db w) with
    | Some c => [EvClose c; EvConnect (connection_string i)]
    | None => [EvConnect (connection_string i)]
    end.
Proof.
  intros Hw Hfail w'. subst w'.
  pose proof (reachable_info drv w Hw) as Hinfo.
  unfold connect, disconnect, is_connected. rewrite Hfail.
  destruct (conn (db w)) as [c |] eqn:Hc; cbn.
  - rewrite <- app_assoc. repeat split; reflexivity.
  - rewrite Hc. repeat split; auto.
Qed.

Lemma failed_connect_disconnects_witness :
  reachable picky (snd (connect picky local_profile fresh)) /\
  is_connected (db (snd (connect picky local_profile fresh))) = true /\
  fst (connect picky remote_profile (snd (connect picky local_profile fresh))) =
    Raise (PsycopgError "no route to host") /\
  is_connected
    (db (snd (connect picky remote_profile
                (snd (connect picky local_profile fresh))))) = false.
Proof.
  assert (Hr : reachable picky (snd (connect picky local_profile fresh))).
  { apply reach_connect, reach_init. }
  split; [ exact Hr |]. split; [ reflexivity |].
  destruct (failed_connect_disconnects picky remote_profile
              (snd (connect picky local_profile fresh)) "no route to host"
              Hr eq_refl) as (Hraise & _ & _ & Hoff & _).
  split; [ exact Hraise | exact Hoff ].
Defined.

End SessionContract.

(** ** The profile store *)

Section StoreFacts.
Import Py Value Store Samples.

Lemma compare_as_OT (a b : string) :
  String.compare a b = String_as_OT.compare a b.
Proof.
  revert b. induction a as [| x a IH]; destruct b as [| y b]; simpl; auto.
  all: change (Ascii_as_OT.compare x y) with (Ascii.compare x y).
  all: destruct (Ascii.compare x y); auto.
Qed.

Lemma ltb_irrefl (a : string) : String.ltb a a = false.
Proof.
  unfold String.ltb. rewrite compare_as_OT.
  destruct (String_as_OT.compare a a) eqn:E; auto.
  exfalso. exact (StrictOrder_Irreflexive (R := String_as_OT.lt) a E).
Qed.

(** [x <= y] and [y <= z] give [x <= z], each read as "not greater". *)
Lemma not_ltb_trans (x y z : string) :
  String.ltb y x = false -> String.ltb z y = false -> String.ltb z x = false.
Proof.
  unfold String.ltb.
  rewrite (compare_as_OT y x), (compare_as_OT z y), (compare_as_OT z x).
  intros Hyx Hzy.
  destruct (String_as_OT.compare z x) eqn:Hzx; auto. exfalso.
  destruct (String_as_OT.compare_spec y x) as [Heq | Hlt | Hgt];
    try discriminate.
  - hnf in Heq. rewrite Heq, Hzx in Hzy. discriminate.
  - assert (Hzy' : String_as_OT.lt z y)
      by (eapply (StrictOrder_Transitive (R := String_as_OT.lt)); eassumption).
    unfold String_as_OT.lt in Hzy'. rewrite Hzy' in Hzy. discriminate.
Qed.

Lemma typed_sort_key (c : ConnectionInfo) :
  timestamp_typed c = true -> sort_key c = PStr (timestamp_text c).
Proof.
  unfold timestamp_typed, timestamp_text, sort_key, py_or.
  destruct (last_connected_at c) as [| b | z | s]; try discriminate; auto.
  intros _. simpl. destruct (truthy_str s); reflexivity.
Qed.

Lemma no_timestamp_text (c : ConnectionInfo) :
  has_timestamp c = false -> timestamp_text c = "".
Proof.
  unfold has_timestamp, timestamp_text, sort_key, py_or.
  destruct (last_connected_at c) as [| b | z | s]; simpl; auto.
  - destruct b; auto.
  - destruct (negb (z =? 0)%Z); auto.
  - intros ->. reflexivity.
Qed.

Lemma timestamp_text_not_empty (c : ConnectionInfo) :
  has_timestamp c = true -> truthy_str (timestamp_text c) = true.
Proof.
  unfold has_timestamp, timestamp_text, sort_key, py_or.
  destruct (last_connected_at c) as [| b | z | s]; try discriminate.
  simpl. intros H. now rewrite H.
Qed.

Lemma empty_before_text (s : string) :
  truthy_str s = true -> String.ltb "" s = true.
Proof. destruct s; [ discriminate | reflexivity ]. Qed.

Lemma insert_sorted_typed (x : ConnectionInfo) (l : list ConnectionInfo) :
  timestamp_typed x = true -> typed l -> StronglySorted not_after l ->
  exists r, insert_sorted sort_key x l = Ok r /\
            (forall c, In c r <-> c = x \/ In c l) /\
            StronglySorted not_after r.
Proof.
  intros Hx Hl Hs. induction l as [| y l IH].
  - exists [x]. split; [ reflexivity |]. split.
    + intros c. simpl. intuition congruence.
    + repeat constructor.
  - inversion Hl as [| ? ? Hy Hl']; subst.
    inversion Hs as [| ? ? Hs' Hall]; subst.
    cbn [insert_sorted].
    rewrite (typed_sort_key y Hy), (typed_sort_key x Hx). cbn [py_lt bind].
    destruct (String.ltb (timestamp_text y) (timestamp_text x)) eqn:Hlt.
    + destruct (IH Hl' Hs') as (r & -> & Hin & Hsorted). cbn [bind].
      exists (y :: r). split; [ reflexivity |]. split.
      * intros c. simpl. rewrite Hin. intuition congruence.
      * constructor; [ assumption |].
        apply List.Forall_forall. intros c Hc. apply Hin in Hc as [-> | Hc].
        -- unfold not_after. unfold String.ltb in *.
           rewrite String.compare_antisym.
           destruct (String.compare (timestamp_text y) (timestamp_text x));
             simpl; auto; discriminate.
        -- rewrite List.Forall_forall in Hall. now apply Hall.
    + exists (x :: y :: l). split; [ reflexivity |]. split.
      * intros c. simpl. intuition congruence.
      * constructor; [ assumption |].
        constructor; [ exact Hlt |].
        apply List.Forall_forall. intros c Hc. rewrite List.Forall_forall in Hall.
        specialize (Hall c Hc). unfold not_after in *.
        eapply not_ltb_trans; eassumption.
Qed.

Lemma sorted_typed (l : list ConnectionInfo) :
  typed l ->
  exists r, sorted sort_key l = Ok r /\
            (forall c, In c r <-> In c l) /\
            StronglySorted not_after r.
Proof.
  induction l as [| x l IH]; intros Hl.
  - exists []. repeat split; auto. constructor.
  - inversion Hl as [| ? ? Hx Hl']; subst.
    destruct (IH Hl') as (r & Hr & Hin & Hs).
    cbn [sorted]. rewrite Hr. cbn [bind].
    assert (Hr' : typed r).
    { apply List.Forall_forall. intros c Hc. apply Hin in Hc.
      unfold typed in Hl'. rewrite List.Forall_forall in Hl'. auto. }
    destruct (insert_sorted_typed x r Hx Hr' Hs) as (r' & -> & Hin' & Hs').
    exists r'. split; [ reflexivity |]. split; [| assumption ].
    intros c. rewrite Hin'. simpl. rewrite Hin. intuition congruence.
Qed.

Lemma sorted_last_is_greatest {A : Type} (R : A -> A -> Prop) (l : list A) (x : A) :
  StronglySorted R (l ++ [x]) -> Forall (fun a => R a x) l.
Proof.
  induction l as [| a l IH]; simpl; intros H; [ constructor |].
  inversion H as [| ? ? Hs Hall]; subst.
  constructor; [| auto ].
  rewrite List.Forall_forall in Hall. apply Hall.
  apply in_or_app. right. now left.
Qed.

(** The profile [sorted_reverse] puts first. *)
Lemma sorted_reverse_head (l : list ConnectionInfo) :
  typed l -> l <> [] ->
  exists c rest, sorted_reverse sort_key l = Ok (c :: rest) /\
                 In c l /\ forall c', In c' l -> not_after c' c.
Proof.
  intros Hl Hne.
  assert (Hrev : typed (rev l)).
  { apply List.Forall_forall. intros c Hc. apply in_rev in Hc.
    unfold typed in Hl. rewrite List.Forall_forall in Hl. auto. }
  destruct (sorted_typed (rev l) Hrev) as (r & Hr & Hin & Hs).
  unfold sorted_reverse. rewrite Hr. cbn [bind].
  destruct (rev r) as [| c rest] eqn:Hrr.
  - exfalso. apply Hne.
    assert (r = []) by (rewrite <- (rev_involutive r), Hrr; reflexivity).
    subst r. destruct l as [| a l]; auto.
    exfalso. apply (proj2 (Hin a)). apply in_rev. rewrite rev_involutive. now left.
  - exists c, rest. split; [ reflexivity |].
    assert (Er : r = rev rest ++ [c])
      by (rewrite <- (rev_involutive r), Hrr; reflexivity).
    assert (Hmem : forall a, In a l <-> In a r).
    { intros a. rewrite Hin. apply in_rev. }
    split.
    + apply Hmem. rewrite Er. apply in_or_app. right. now left.
    + intros c' Hc'. apply Hmem in Hc'. rewrite Er in Hc', Hs.
      apply sorted_last_is_greatest in Hs. rewrite List.Forall_forall in Hs.
      apply in_app_or in Hc' as [Hc' | [<- | []]]; [ now apply Hs |].
      apply ltb_irrefl.
Qed.

(** C7: over a store whose profiles carry a timestamp text or none,
    [get_last_connection] returns nothing for an empty list and otherwise a
    profile of the list than which none has a later timestamp; a profile
    without a timestamp counts as strictly older than any with one, so it is
    not returned while some profile has a timestamp. *)
Theorem most_recently_used (s : store) (l : list ConnectionInfo) :
  load_connections s = Ok l ->
  Forall (fun c => timestamp_typed c = true) l ->
  exists r, get_last_connection s = Ok r /\
    (l = [] -> r = None) /\
    (l <> [] ->
     exists c, r = Some c /\ In c l /\
       (forall c', In c' l -> not_after c' c) /\
       ((exists c', In c' l /\ has_timestamp c' = true) ->
        has_timestamp c = true)) /\
    (forall a b, has_timestamp a = false -> has_timestamp b = true ->
                 String.ltb (timestamp_text a) (timestamp_text b) = true).
Proof.
  intros Hload Hl. unfold get_last_connection. rewrite Hload. cbn [bind].
  assert (Hstrict : forall a b, has_timestamp a = false -> has_timestamp b = true ->
                      String.ltb (timestamp_text a) (timestamp_text b) = true).
  { intros a b Ha Hb. rewrite (no_timestamp_text a Ha).
    apply empty_before_text, timestamp_text_not_empty, Hb. }
  destruct l as [| x l'].
  - exists None. repeat split; auto. intros H; now contradiction H.
  - destruct (sorted_reverse_head (x :: l') Hl) as (c & rest & Hsort & Hin & Hmax);
      [ discriminate |].
    rewrite Hsort. cbn [bind head]. exists (Some c).
    split; [ reflexivity |]. split; [ discriminate |]. split; [| exact Hstrict ].
    intros _. exists c. repeat split; auto.
    intros (c' & Hc' & Hstamp).
    destruct (has_timestamp c) eqn:Hc; [ reflexivity |].
    specialize (Hmax c' Hc'). unfold not_after in Hmax.
    rewrite (Hstrict c c' Hc Hstamp) in Hmax. discriminate.
Qed.

Lemma most_recently_used_witness :
  load_connections three_profiles = Ok three_loaded /\
  Forall (fun c => timestamp_typed c = true) three_loaded /\
  exists r, get_last_connection three_profiles = Ok r /\
    (three_loaded <> [] ->
     exists c, r = Some c /\ In c three_loaded /\
       (forall c', In c' three_loaded -> not_after c' c) /\
       ((exists c', In c' three_loaded /\ has_timestamp c' = true) ->
        has_timestamp c = true)).
Proof.
  assert (Hload : load_connections three_profiles = Ok three_loaded)
    by (vm_compute; reflexivity).
  assert (Htyped : Forall (fun c => timestamp_typed c = true) three_loaded)
    by (repeat constructor).
  split; [ exact Hload |]. split; [ exact Htyped |].
  destruct (most_recently_used three_profiles three_loaded Hload Htyped)
    as (r & Hr & _ & Hsome & _).
  exists r. split; [ exact Hr | exact Hsome ].
Defined.

(** C8: [load_connections] gives the empty list for a missing file and for
    text that is not JSON, but a document that is JSON and not a list of
    well-formed records makes it raise: a record without [name] and a record
    that is not wrapped in a list both end in a [TypeError], which the
    handler for [JSONDecodeError] and [KeyError] lets through. *)
Theorem load_connections_on_damaged_stores :
  load_connections Missing = Ok [] /\
  load_connections Garbled = Ok [] /\
  load_connections nameless_record = Raise TypeError /\
  load_connections bare_record = Raise TypeError.
Proof.
  repeat split; vm_compute; reflexivity.
Qed.

End StoreFacts.

(** ** The grid *)

Section GridFacts.
Import Py Value Session Grid Samples.

Lemma coord_eqb_eq (a b : coord) : coord_eqb a b = true <-> a = b.
Proof.
  destruct a as [r c], b as [r' c']. unfold coord_eqb. simpl.
  rewrite andb_true_iff, !Nat.eqb_eq. split.
  - intros [-> ->]. reflexivity.
  - intros H. inversion H. auto.
Qed.

Lemma coord_eqb_refl (a : coord) : coord_eqb a a = true.
Proof. now apply coord_eqb_eq. Qed.

Lemma coord_eqb_neq (a b : coord) : a <> b -> coord_eqb a b = false.
Proof.
  intros H. destruct (coord_eqb a b) eqn:E; auto.
  apply coord_eqb_eq in E. contradiction.
Qed.

(** *** The dict operations *)

Lemma get_none_entries (k : coord) (d : edits_dict) :
  edits_get k d = None <-> entries_at k d = 0.
Proof.
  unfold entries_at. induction d as [| [k' v] d IH]; simpl; [ tauto |].
  destruct (coord_eqb k' k); simpl; [ split; discriminate | exact IH ].
Qed.

Lemma get_set_same (k : coord) (v : pyval) (d : edits_dict) :
  edits_get k (edits_set k v d) = Some v.
Proof.
  induction d as [| [k' v'] d IH]; simpl.
  - now rewrite coord_eqb_refl.
  - destruct (coord_eqb k' k) eqn:E; simpl; rewrite E; auto.
Qed.

Lemma get_set_other (k k' : coord) (v : pyval) (d : edits_dict) :
  k <> k' -> edits_get k' (edits_set k v d) = edits_get k' d.
Proof.
  intros Hne. induction d as [| [k0 v0] d IH]; simpl.
  - now rewrite coord_eqb_neq.
  - destruct (coord_eqb k0 k) eqn:E; simpl; [| now rewrite IH ].
    apply coord_eqb_eq in E. subst k0. now rewrite coord_eqb_neq.
Qed.

Lemma get_del_other (k k' : coord) (d : edits_dict) :
  k <> k' -> edits_get k' (edits_del k d) = edits_get k' d.
Proof.
  intros Hne. induction d as [| [k0 v0] d IH]; simpl; [ reflexivity |].
  destruct (coord_eqb k0 k) eqn:E; simpl.
  - apply coord_eqb_eq in E. subst k0. now rewrite coord_eqb_neq.
  - now rewrite IH.
Qed.

Lemma entries_set_same (k : coord) (v : pyval) (d : edits_dict) :
  entries_at k (edits_set k v d) =
  if edits_mem k d then entries_at k d else 1.
Proof.
  unfold entries_at, edits_mem.
  induction d as [| [k' v'] d IH]; simpl.
  - now rewrite coord_eqb_refl.
  - destruct (coord_eqb k' k) eqn:E; simpl; rewrite E; simpl; auto.
Qed.

Lemma entries_set_other (k k' : coord) (v : pyval) (d : edits_dict) :
  k <> k' -> entries_at k' (edits_set k v d) = entries_at k' d.
Proof.
  intros Hne. unfold entries_at.
  induction d as [| [k0 v0] d IH]; simpl.
  - now rewrite coord_eqb_neq.
  - destruct (coord_eqb k0 k) eqn:E; simpl.
    + destruct (coord_eqb k0 k'); reflexivity.
    + destruct (coord_eqb k0 k'); simpl; now rewrite IH.
Qed.

Lemma entries_del_same (k : coord) (d : edits_dict) :
  entries_at k (edits_del k d) = pred (entries_at k d).
Proof.
  unfold entries_at.
  induction d as [| [k' v'] d IH]; simpl; [ reflexivity |].
  destruct (coord_eqb k' k) eqn:E; simpl; rewrite ?E; simpl; auto.
Qed.

Lemma entries_del_other (k k' : coord) (d : edits_dict) :
  k <> k' -> entries_at k' (edits_del k d) = entries_at k' d.
Proof.
  intros Hne. unfold entries_at.
  induction d as [| [k0 v0] d IH]; simpl; [ reflexivity |].
  destruct (coord_eqb k0 k) eqn:E; simpl.
  - apply coord_eqb_eq in E. subst k0. now rewrite coord_eqb_neq.
  - destruct (coord_eqb k0 k'); simpl; now rewrite IH.
Qed.

Lemma unique_set (k : coord) (v : pyval) (d : edits_dict) :
  unique_keys d -> unique_keys (edits_set k v d).
Proof.
  intros Hu k'. destruct (coord_eqb k k') eqn:E.
  - apply coord_eqb_eq in E. subst k'. rewrite entries_set_same.
    destruct (edits_mem k d); [ apply Hu | lia ].
  - rewrite entries_set_other; [ apply Hu |].
    intros ->. rewrite coord_eqb_refl in E. discriminate.
Qed.

Lemma unique_del (k : coord) (d : edits_dict) :
  unique_keys d -> unique_keys (edits_del k d).
Proof.
  intros Hu k'. destruct (coord_eqb k k') eqn:E.
  - apply coord_eqb_eq in E. subst k'. rewrite entries_del_same.
    specialize (Hu k). lia.
  - rewrite entries_del_other; [ apply Hu |].
    intros ->. rewrite coord_eqb_refl in E. discriminate.
Qed.

Lemma get_del_same (k : coord) (d : edits_dict) :
  unique_keys d -> edits_get k (edits_del k d) = None.
Proof.
  intros Hu. apply get_none_entries. rewrite entries_del_same.
  specialize (Hu k). lia.
Qed.

(** *** Cell writes *)

Lemma setData_in_grid (m : ResultsModel) (row col : nat) (v : pyval) :
  row < length (_data m) -> col < length (_columns m) ->
  exists orig,
    original m row col = Some orig /\
    setData m (Index row col) v EditRole =
    Ok (with_edits (edits_after m (row, col) v orig) m,
        [dataChanged (Index row col) (Index row col);
         editsChanged (length (edits_after m (row, col) v orig))],
        true).
Proof.
  intros Hr Hc.
  destruct (lookup_lt_is_Some_2 _ _ Hr) as [r Er].
  destruct (lookup_lt_is_Some_2 _ _ Hc) as [c Ec].
  exists (get r c). unfold original, setData, item, edits_after.
  rewrite Er, Ec. cbn [bind]. split; reflexivity.
Qed.

Lemma edits_after_unique (m : ResultsModel) (k : coord) (v orig : pyval) :
  unique_keys (_edits m) -> unique_keys (edits_after m k v orig).
Proof.
  intros Hu. unfold edits_after.
  destruct (py_ne v orig); [ now apply unique_set |].
  destruct (edits_mem k (_edits m)); [ now apply unique_del | assumption ].
Qed.

Lemma edits_after_same (m : ResultsModel) (k : coord) (v orig : pyval) :
  unique_keys (_edits m) ->
  edits_get k (edits_after m k v orig) = if py_ne v orig then Some v else None.
Proof.
  intros Hu. unfold edits_after.
  destruct (py_ne v orig); [ apply get_set_same |].
  unfold edits_mem. destruct (edits_get k (_edits m)) eqn:E;
    [ now apply get_del_same | exact E ].
Qed.

Lemma edits_after_other (m : ResultsModel) (k k' : coord) (v orig : pyval) :
  k <> k' -> edits_get k' (edits_after m k v orig) = edits_get k' (_edits m).
Proof.
  intros Hne. unfold edits_after.
  destruct (py_ne v orig); [ now apply get_set_other |].
  destruct (edits_mem k (_edits m)); [ now apply get_del_other | reflexivity ].
Qed.

(** What a sequence of writes leaves in the edit dict, from any model whose
    dict has one entry per coordinate. *)
Lemma writes_overlay (ws : list write) :
  forall m,
    unique_keys (_edits m) ->
    Forall (in_grid (length (_data m)) (length (_columns m))) ws ->
    exists m',
      writes ws m = Ok m' /\
      _data m' = _data m /\ _columns m' = _columns m /\
      unique_keys (_edits m') /\
      forall k orig,
        original m (fst k) (snd k) = Some orig ->
        edits_get k (_edits m') =
        match last_written k ws with
        | Some v => if py_ne v orig then Some v else None
        | None => edits_get k (_edits m)
        end.
Proof.
  induction ws as [| [[row col] v] ws IH]; intros m Hu Hin.
  - exists m. repeat split; auto.
  - inversion Hin as [| ? ? [Hr Hc] Hin']; subst. cbn [fst snd] in Hr, Hc.
    destruct (setData_in_grid m row col v Hr Hc) as (orig0 & Horig0 & Hset).
    cbn [writes]. rewrite Hset. cbn [bind fst].
    set (m1 := with_edits (edits_after m (row, col) v orig0) m).
    destruct (IH m1) as (m' & Hw & Hd & Hcols & Hu' & Hget).
    { now apply edits_after_unique. }
    { exact Hin'. }
    exists m'. split; [ exact Hw |]. repeat split; auto.
    intros k orig Horig. rewrite (Hget k orig Horig). cbn [last_written].
    destruct (last_written k ws) as [v' |]; [ reflexivity |].
    cbn [m1 with_edits _edits].
    destruct (coord_eqb (row, col) k) eqn:E.
    + apply coord_eqb_eq in E. subst k. cbn [fst snd] in Horig.
      rewrite Horig0 in Horig. inversion Horig; subst orig0.
      now apply edits_after_same.
    + apply edits_after_other. intros Heq. rewrite Heq in E.
      rewrite coord_eqb_refl in E. discriminate.
Qed.

(** C3: after [set_data] and any sequence of cell writes inside the grid,
    the dict has an edit at a coordinate exactly when the last value written
    there differs from the fetched value, and the edit is that value; what was
    written before does not count, so writing the fetched value back leaves no
    edit; a coordinate never has more than one entry; reading the cell gives
    the edit when there is one and the fetched value otherwise. *)
Theorem edit_overlay (rows : list Row) (columns : list string)
  (column_types : option (list Z)) (m0 : ResultsModel) (ws : list write) :
  Forall (in_grid (length rows) (length columns)) ws ->
  let m := fst (set_data rows columns column_types m0) in
  exists m',
    writes ws m = Ok m' /\
    forall row col orig,
      original m row col = Some orig ->
      let edit := edits_get (row, col) (_edits m') in
      original m' row col = Some orig /\
      edit = match last_written (row, col) ws with
             | Some v => if py_ne v orig then Some v else None
             | None => None
             end /\
      entries_at (row, col) (_edits m') =
        (if edits_mem (row, col) (_edits m') then 1 else 0) /\
      data m' (Index row col) EditRole = QVal (default orig edit) /\
      data m' (Index row col) DisplayRole = display (default orig edit).
Proof.
  intros Hin m.
  destruct (writes_overlay ws m) as (m' & Hw & Hd & Hc & Hu & Hget).
  { intros k. cbn. lia. }
  { exact Hin. }
  exists m'. split; [ exact Hw |].
  intros row col orig Horig edit.
  assert (Horig' : original m' row col = Some orig).
  { unfold original in *. now rewrite Hd, Hc. }
  assert (Hedit : edit = match last_written (row, col) ws with
                         | Some v => if py_ne v orig then Some v else None
                         | None => None
                         end).
  { unfold edit. now rewrite (Hget (row, col) orig Horig). }
  split; [ exact Horig' |]. split; [ exact Hedit |]. split; [| split ].
  - unfold edits_mem. fold edit. destruct edit as [v |] eqn:E.
    + pose proof (Hu (row, col)) as Hle.
      destruct (entries_at (row, col) (_edits m')) as [| [| n]] eqn:En;
        [| reflexivity | lia ].
      apply get_none_entries in En. unfold edit in E. congruence.
    + now apply get_none_entries.
  - unfold data. fold edit. rewrite Horig'. destruct edit; reflexivity.
  - unfold data. fold edit. rewrite Horig'.
    destruct edit as [[| b | z | s] |]; try reflexivity.
Qed.

Lemma edit_overlay_witness :
  Forall (in_grid (length two_rows) 2)
         [((0, 1), PInt 6); ((1, 1), PInt 9); ((0, 1), PInt 6); ((1, 1), PInt 7)] /\
  exists m',
    writes [((0, 1), PInt 6); ((1, 1), PInt 9); ((0, 1), PInt 6); ((1, 1), PInt 7)]
           (fst (set_data two_rows ["id"; "qty"] None new_model)) = Ok m' /\
    _edits m' = [((0, 1), PInt 6)].
Proof.
  assert (Hin : Forall (in_grid (length two_rows) 2)
                  [((0, 1), PInt 6); ((1, 1), PInt 9); ((0, 1), PInt 6);
                   ((1, 1), PInt 7)]).
  { repeat constructor. }
  split; [ exact Hin |].
  destruct (edit_overlay two_rows ["id"; "qty"] None new_model _ Hin)
    as (m' & Hw & _).
  exists m'. split; [ exact Hw |].
  vm_compute in Hw. inversion Hw. reflexivity.
Defined.

(** *** Error results *)

(** An error-classified result bound to a table with a key accepts edits:
    the claim as stated does not hold. *)
Lemma error_result_with_key_is_editable :
  ~ (forall (rows : list Row) (column_types : option (list Z))
            (schema table : string) (pk_columns : list string)
            (m0 : ResultsModel) (index : QModelIndex),
        accepts_edit
          (set_table_info schema table pk_columns
             (fst (set_data rows ["Error"] column_types m0))) index = false).
Proof.
  intros H.
  specialize (H [ {[ "Error" := PStr "disk full" ]} ] None
                "public" "log" ["id"] new_model (Index 0 0)).
  vm_compute in H. discriminate H.
Qed.

Lemma accepts_edit_iff (m : ResultsModel) (index : QModelIndex) :
  accepts_edit m index = true <-> _table m <> "" /\ _pk_columns m <> [].
Proof.
  unfold accepts_edit, flags, super_flags.
  destruct (_table m) as [| a t]; destruct (_pk_columns m) as [| pk pks];
    destruct (isValid index); cbn; split; intros H;
    try discriminate; try reflexivity; try (destruct H; congruence);
    split; discriminate.
Qed.

(** C9, amended: a result with the single column [Error] is marked as an
    error and painted as one, and its cells accept an edit exactly when the
    model is bound to a table and a non-empty list of key columns, as for any
    other result; with no table bound or with no key column no cell accepts
    an edit. *)
Theorem error_result_editability (rows : list Row)
  (column_types : option (list Z)) (schema table : string)
  (pk_columns : list string) (m0 : ResultsModel) (index : QModelIndex) :
  let m := set_table_info schema table pk_columns
             (fst (set_data rows ["Error"] column_types m0)) in
  _is_error m = true /\
  (forall row col, data m (Index row col) BackgroundRole = QColor 255 230 230) /\
  (forall row col, data m (Index row col) ForegroundRole = QColor 180 0 0) /\
  (accepts_edit m index = true <-> table <> "" /\ pk_columns <> []) /\
  (table = "" \/ pk_columns = [] -> accepts_edit m index = false).
Proof.
  intros m. split; [ reflexivity |]. split; [ reflexivity |].
  split; [ reflexivity |].
  pose proof (accepts_edit_iff m index) as Hiff. cbn in Hiff.
  split; [ exact Hiff |].
  intros Hnone. destruct (accepts_edit m index) eqn:E; [| reflexivity ].
  apply Hiff in E. destruct E, Hnone; contradiction.
Qed.

End GridFacts.

(** ** Commit *)

Section CommitFacts.
Import Py Value Session Grid Window Samples.

Variable drv : Driver.

Lemma execute_update_cases (schema table : string) (pk_columns : list string)
  (pk_values : list pyval) (column : string) (value : pyval) (w : World) :
  let call := execute_update drv schema table pk_columns pk_values column value w in
  let stmt := update_stmt schema table pk_columns pk_values column value in
  (fst call = Ok None /\ pending (snd call) = pending w ++ [stmt] /\
   durable (srv (snd call)) = durable (srv w)) \/
  (exists e, fst call = Ok (Some e) /\
             durable (srv (snd call)) = durable (srv w) /\
             (messages_not_empty drv -> truthy_str e = true)).
Proof.
  intros call stmt. subst call. unfold execute_update, pending.
  destruct (conn (db w)) as [c |] eqn:Hc.
  - destruct pk_columns as [| pk pks].
    + right. eexists. repeat split; reflexivity.
    + fold stmt. unfold execute.
      destruct (pg_execute drv (durable (srv w)) (txn c) stmt) as [cur | msg] eqn:Hx.
      * left. cbn. repeat split; reflexivity.
      * right. exists msg. unfold rollback. cbn. rewrite Hc. cbn.
        repeat split. intros Hne. specialize (Hne _ _ _ _ Hx).
        destruct msg; [ contradiction | reflexivity ].
  - right. eexists. repeat split; reflexivity.
Qed.

Section Loop.
Variables (schema table : string) (pk_columns : list string).

Lemma run_updates_collects (edits : list (list pyval * string * pyval)) :
  forall errors w,
    run_updates drv schema table pk_columns edits errors w =
    (Ok (errors ++ collected (fst (update_returns drv schema table pk_columns edits w))),
     snd (update_returns drv schema table pk_columns edits w)).
Proof.
  induction edits as [| [[pk_values column] value] edits IH]; intros errors w.
  - cbn. now rewrite app_nil_r.
  - cbn [run_updates update_returns].
    pose proof (execute_update_cases schema table pk_columns pk_values column
                  value w) as Hcase. cbn zeta in Hcase.
    destruct (execute_update drv schema table pk_columns pk_values column value w)
      as [r w1]. cbn [fst snd] in Hcase.
    destruct (update_returns drv schema table pk_columns edits w1)
      as [rs w2] eqn:Hrest.
    destruct Hcase as [(-> & _) | (e & -> & _)]; rewrite IH, Hrest; cbn.
    + reflexivity.
    + destruct (truthy_str e); [ now rewrite <- app_assoc | reflexivity ].
Qed.

Lemma update_returns_durable (edits : list (list pyval * string * pyval)) :
  forall w,
    durable (srv (snd (update_returns drv schema table pk_columns edits w))) =
    durable (srv w).
Proof.
  induction edits as [| [[pk_values column] value] edits IH]; intros w.
  - reflexivity.
  - cbn [update_returns].
    pose proof (execute_update_cases schema table pk_columns pk_values column
                  value w) as Hcase. cbn zeta in Hcase.
    destruct (execute_update drv schema table pk_columns pk_values column value w)
      as [r w1]. cbn [fst snd] in Hcase.
    specialize (IH w1).
    destruct (update_returns drv schema table pk_columns edits w1) as [rs w2].
    cbn [snd] in *. rewrite IH.
    destruct Hcase as [(_ & _ & H) | (e & _ & H & _)]; exact H.
Qed.

Lemma update_returns_all_ok (edits : list (list pyval * string * pyval)) :
  forall w,
    Forall (fun r => r = Ok None)
           (fst (update_returns drv schema table pk_columns edits w)) ->
    pending (snd (update_returns drv schema table pk_columns edits w)) =
    pending w ++
    map (fun e : list pyval * string * pyval =>
           let '(pk_values, column, new_value) := e in
           update_stmt schema table pk_columns pk_values column new_value)
        edits.
Proof.
  induction edits as [| [[pk_values column] value] edits IH]; intros w.
  - cbn. now rewrite app_nil_r.
  - cbn [update_returns map].
    pose proof (execute_update_cases schema table pk_columns pk_values column
                  value w) as Hcase. cbn zeta in Hcase.
    destruct (execute_update drv schema table pk_columns pk_values column value w)
      as [r w1]. cbn [fst snd] in Hcase.
    specialize (IH w1).
    destruct (update_returns drv schema table pk_columns edits w1) as [rs w2].
    cbn [fst snd] in *. intros Hall.
    inversion Hall as [| ? ? Hr Hrs]; subst.
    rewrite (IH Hrs).
    destruct Hcase as [(_ & -> & _) | (e & He & _)]; [| discriminate ].
    now rewrite <- app_assoc.
Qed.

(** What the kept errors say about the returns, when every error carries a
    text. *)
Lemma collected_reads (edits : list (list pyval * string * pyval)) :
  messages_not_empty drv ->
  forall w,
    let rets := fst (update_returns drv schema table pk_columns edits w) in
    (collected rets = [] -> Forall (fun r => r = Ok None) rets) /\
    (forall e others, collected rets = e :: others -> first_failure rets = Some e).
Proof.
  intros Hmsg.
  induction edits as [| [[pk_values column] value] edits IH]; intros w.
  - cbn. split; [ constructor | discriminate ].
  - cbn [update_returns].
    pose proof (execute_update_cases schema table pk_columns pk_values column
                  value w) as Hcase. cbn zeta in Hcase.
    destruct (execute_update drv schema table pk_columns pk_values column value w)
      as [r w1]. cbn [fst snd] in Hcase.
    specialize (IH w1). cbn zeta in IH.
    destruct (update_returns drv schema table pk_columns edits w1) as [rs w2].
    cbn [fst] in *.
    destruct Hcase as [(-> & _) | (e & -> & _ & He)]; cbn.
    + destruct IH as [IHnil IHcons]. split; auto.
    + rewrite (He Hmsg). split; [ discriminate |].
      intros e' others H. now inversion H.
Qed.

End Loop.

Lemma commit_world (w : World) :
  pending (commit w) = [] /\
  durable (srv (commit w)) = durable (srv w) ++ pending w.
Proof.
  unfold commit, pending. destruct (conn (db w)) eqn:E; cbn.
  - split; reflexivity.
  - rewrite E, app_nil_r. split; reflexivity.
Qed.

Lemma rollback_world (w : World) :
  pending (rollback w) = [] /\ durable (srv (rollback w)) = durable (srv w).
Proof.
  unfold rollback, pending. destruct (conn (db w)) eqn:E; cbn.
  - split; reflexivity.
  - rewrite E. split; reflexivity.
Qed.

Lemma substring_all (s : string) : String.substring 0 (String.length s) s = s.
Proof. induction s as [| c s IH]; simpl; [ reflexivity | now rewrite IH ]. Qed.

Lemma surfaced_first (e : string) (rest : list UiEvent) :
  surfaced_error (StatusMessage ("Update failed: " +:+ e) :: rest) = Some e.
Proof.
  cbn [surfaced_error].
  assert (Hp : String.prefix "Update failed: " ("Update failed: " +:+ e) = true).
  { simpl. repeat (destruct (ascii_dec _ _); [| congruence ]).
    apply prefix_empty. }
  rewrite Hp. f_equal. simpl. rewrite Nat.sub_0_r. apply substring_all.
Qed.

Lemma get_pending_edits_length (m : ResultsModel)
  (edits : list (list pyval * string * pyval)) :
  get_pending_edits m = Ok edits -> length edits = length (_edits m).
Proof.
  unfold get_pending_edits. generalize (_edits m). intros d. revert edits.
  induction d as [| [[row col] v] d IH]; intros edits H; cbn in H.
  - now inversion H.
  - destruct (item (_data m) row) as [r |]; [| discriminate ].
    cbn in H. destruct (item (_columns m) col) as [c |]; [| discriminate ].
    cbn in H.
    match type of H with
    | context [Store.comprehension ?f d] =>
        destruct (Store.comprehension f d) as [rest |] eqn:Hrest;
          [| discriminate ]
    end.
    cbn in H. inversion H; subst. cbn. f_equal. now apply IH.
Qed.

Lemma edits_set_in_grid (n_rows n_columns : nat) (k : coord) (v : pyval)
  (d : edits_dict) :
  in_grid n_rows n_columns (k, v) -> Forall (in_grid n_rows n_columns) d ->
  Forall (in_grid n_rows n_columns) (edits_set k v d).
Proof.
  intros Hk Hd. induction Hd as [| [k' v'] d Hk' Hd IH]; simpl.
  - constructor; [ exact Hk | constructor ].
  - destruct (coord_eqb k' k); constructor; auto.
Qed.

Lemma edits_del_in_grid (n_rows n_columns : nat) (k : coord) (d : edits_dict) :
  Forall (in_grid n_rows n_columns) d ->
  Forall (in_grid n_rows n_columns) (edits_del k d).
Proof.
  intros Hd. induction Hd as [| [k' v'] d Hk' Hd IH]; simpl.
  - constructor.
  - destruct (coord_eqb k' k); [ assumption | constructor; auto ].
Qed.

(** What holds of every model the window shows: the edits lie inside the
    grid, and there are edits only on a model bound to key columns. *)
Lemma shown_invariant (m : ResultsModel) :
  shown m ->
  Forall (in_grid (length (_data m)) (length (_columns m))) (_edits m) /\
  (has_edits m = true -> _pk_columns m <> []).
Proof.
  induction 1 as [| rows columns column_types schema table pk_columns m Hm IH
                  | m row col value m' Hm IH Hedit | m Hm IH].
  - split; [ constructor | discriminate ].
  - unfold show_result.
    destruct (truthy_str schema && truthy_str table); cbn;
      (split; [ constructor | discriminate ]).
  - destruct IH as [Hgrid Hpk]. unfold user_edit in Hedit.
    destruct (accepts_edit m (Index row col)) eqn:Hacc.
    + apply accepts_edit_iff in Hacc as [_ Hkeys].
      unfold setData, item in Hedit.
      destruct (_data m !! row) as [r |] eqn:Er; [| discriminate ].
      destruct (_columns m !! col) as [c |] eqn:Ec; [| discriminate ].
      cbn in Hedit. inversion Hedit; subst m'. cbn.
      split; [| intros _; exact Hkeys ].
      assert (Hk : in_grid (length (_data m)) (length (_columns m)) ((row, col), value)).
      { split; cbn; eapply lookup_lt_Some; eassumption. }
      destruct (py_ne value (get r c)); [ now apply edits_set_in_grid |].
      destruct (edits_mem (row, col) (_edits m));
        [ now apply edits_del_in_grid | assumption ].
    + inversion Hedit; subst m'. split; assumption.
  - cbn. split; [ constructor | discriminate ].
Qed.

Lemma get_pending_edits_in_grid (m : ResultsModel) :
  Forall (in_grid (length (_data m)) (length (_columns m))) (_edits m) ->
  exists edits, get_pending_edits m = Ok edits.
Proof.
  unfold get_pending_edits. generalize (_edits m). intros d Hd.
  induction Hd as [| [[row col] v] d [Hr Hc] Hd IH]; cbn.
  - eexists. reflexivity.
  - cbn [fst snd] in Hr, Hc. unfold item at 1.
    destruct (lookup_lt_is_Some_2 _ _ Hr) as [r ->]. cbn.
    unfold item at 1. destruct (lookup_lt_is_Some_2 _ _ Hc) as [c ->]. cbn.
    destruct IH as [rest ->]. cbn. eexists. reflexivity.
Qed.

(** C1: commit over the N pending edits of a model the window shows, on a
    driver whose errors carry a text. Either every [execute_update] returns no
    error, and then all N edits are cleared and the transaction is committed
    with the N updates in it; or one of them returns an error, and then the
    model is left as it was with its N edits, the transaction is rolled back,
    nothing of it has become durable, and the first error returned is the one
    shown. *)
Theorem commit_atomicity (m : ResultsModel) (w : World) :
  shown m ->
  messages_not_empty drv ->
  exists edits m' ui w',
    get_pending_edits m = Ok edits /\
    length edits = length (_edits m) /\
    _commit_changes drv m w = (Ok (m', ui), w') /\
    let rets := fst (update_returns drv (_schema m) (_table m) (_pk_columns m)
                                    edits w) in
    ((Forall (fun r => r = Ok None) rets /\
      _edits m' = [] /\
      pending w' = [] /\
      durable (srv w') = durable (srv w) ++ pending w ++ edit_stmts m edits /\
      surfaced_error ui = None)
     \/
     (exists e, first_failure rets = Some e /\
      m' = m /\
      pending w' = [] /\
      durable (srv w') = durable (srv w) /\
      surfaced_error ui = Some e)).
Proof.
  intros Hshown Hmsg.
  destruct (shown_invariant m Hshown) as [Hgrid Hpk].
  destruct (get_pending_edits_in_grid m Hgrid) as [edits Hedits].
  exists edits.
  pose proof (get_pending_edits_length m edits Hedits) as Hlen.
  set (rets := fst (update_returns drv (_schema m) (_table m) (_pk_columns m)
                                   edits w)).
  unfold _commit_changes.
  destruct (has_edits m) eqn:Hhas.
  - specialize (Hpk eq_refl).
    destruct (_pk_columns m) as [| pk pks] eqn:Epk; [ contradiction |].
    cbn [is_nil]. rewrite Hedits, run_updates_collects. cbn [app].
    fold rets.
    destruct (collected_reads (_schema m) (_table m) (pk :: pks) edits Hmsg w)
      as [Hnil Hcons]. fold rets in Hnil, Hcons.
    set (w1 := snd (update_returns drv (_schema m) (_table m) (pk :: pks) edits w)).
    destruct (collected rets) as [| first others] eqn:Ecol.
    + do 3 eexists. split; [ first [ exact Hedits | reflexivity ] |].
      split; [ exact Hlen |].
      split; [ reflexivity |]. left.
      specialize (Hnil eq_refl).
      destruct (commit_world w1) as [Hp Hd].
      split; [ exact Hnil |]. split; [ reflexivity |]. split; [ exact Hp |].
      split; [| reflexivity ].
      rewrite Hd. unfold w1.
      rewrite update_returns_durable, (update_returns_all_ok _ _ _ _ _ Hnil).
      unfold edit_stmts. rewrite Epk. reflexivity.
    + do 3 eexists. split; [ first [ exact Hedits | reflexivity ] |].
      split; [ exact Hlen |].
      split; [ reflexivity |]. right.
      exists first. destruct (rollback_world w1) as [Hp Hd].
      split; [ now apply (Hcons first others) |]. split; [ reflexivity |].
      split; [ exact Hp |]. split; [| apply surfaced_first ].
      rewrite Hd. unfold w1. apply update_returns_durable.
  - assert (Hnone : _edits m = []).
    { unfold has_edits in Hhas. destruct (_edits m); [ reflexivity | discriminate ]. }
    assert (edits = []).
    { unfold get_pending_edits in Hedits. rewrite Hnone in Hedits.
      cbn in Hedits. now inversion Hedits. }
    subst edits. do 3 eexists. split; [ first [ exact Hedits | reflexivity ] |].
      split; [ exact Hlen |].
    split; [ reflexivity |].
    left. destruct (commit_world w) as [Hp Hd].
    split; [ constructor |]. split; [ exact Hnone |]. split; [ exact Hp |].
    split; [| reflexivity ].
    rewrite Hd. cbn. now rewrite app_nil_r.
Qed.

End CommitFacts.

Section CommitExamples.
Import Py Value Session Grid Window Samples.

Lemma edited_grid_shown : shown edited_grid.
Proof.
  apply (shown_edit (with_edits [((0, 1), PInt 6)] shown_grid) 1 1 (PInt 9));
    [| vm_compute; reflexivity ].
  apply (shown_edit shown_grid 0 1 (PInt 6)); [| vm_compute; reflexivity ].
  apply shown_result, shown_new.
Defined.

Lemma unwilling_messages : messages_not_empty unwilling.
Proof. intros stored open s msg H. cbn in H. inversion H. discriminate. Defined.

Lemma commit_atomicity_witness :
  shown edited_grid /\
  messages_not_empty unwilling /\
  exists m' ui w',
    _commit_changes unwilling edited_grid online = (Ok (m', ui), w') /\
    m' = edited_grid /\
    pending w' = [] /\
    durable (srv w') = durable (srv online) /\
    surfaced_error ui = Some "permission denied".
Proof.
  split; [ exact edited_grid_shown |]. split; [ exact unwilling_messages |].
  destruct (commit_atomicity unwilling edited_grid online
              edited_grid_shown unwilling_messages)
    as (edits & m' & ui & w' & He & _ & Hc & Hcase).
  vm_compute in He. inversion He; subst edits. clear He.
  exists m', ui, w'. split; [ exact Hc |].
  destruct Hcase as [(Hok & _) | (e & Hf & Hm & Hp & Hd & Hs)].
  - exfalso. vm_compute in Hok. inversion Hok as [| ? ? Hhead _]. discriminate Hhead.
  - vm_compute in Hf. inversion Hf; subst e. repeat split; assumption.
Defined.

(** On a willing server the two edits become two parameterized updates, made
    durable together by the commit. *)
Example commit_on_willing_server :
  exists ui,
    _commit_changes willing edited_grid online =
      (Ok (shown_grid, ui),
       {| db := db online;
          srv := {| durable :=
                      [ {| text := "UPDATE " +:+ identifier "public" +:+ "." +:+
                                   identifier "items" +:+ " SET " +:+
                                   identifier "qty" +:+ " = %s WHERE " +:+
                                   identifier "id" +:+ " = %s";
                           params := [PInt 6; PInt 1]; cursor_name := None |};
                        {| text := "UPDATE " +:+ identifier "public" +:+ "." +:+
                                   identifier "items" +:+ " SET " +:+
                                   identifier "qty" +:+ " = %s WHERE " +:+
                                   identifier "id" +:+ " = %s";
                           params := [PInt 9; PInt 2]; cursor_name := None |} ];
                    trace := trace (srv (snd (_commit_changes willing edited_grid online))) |} |}).
Proof. eexists. vm_compute. reflexivity. Qed.

End CommitExamples.

(** ** Saving and touching profiles *)

Section ProfileFacts.
Import Py Value Store Profiles Samples.

Lemma from_dict_to_dict (c : ConnectionInfo) :
  from_dict (JObj (to_dict c)) = Ok c.
Proof. destruct c. vm_compute. reflexivity. Qed.

Lemma comprehension_to_dict (l : list ConnectionInfo) :
  comprehension from_dict (map (fun c => JObj (to_dict c)) l) = Ok l.
Proof.
  induction l as [| c l IH]; [ reflexivity |].
  cbn [map comprehension]. rewrite from_dict_to_dict. cbn [bind].
  rewrite IH. reflexivity.
Qed.

Lemma load_saved (l : list ConnectionInfo) :
  load_connections (save_connections l) = Ok l.
Proof.
  unfold load_connections, save_connections. cbn [json_load iterate bind].
  rewrite comprehension_to_dict. reflexivity.
Qed.

(** X1: a profile written by [to_dict] is read back by [from_dict] as it
    was; a record of the time before timestamps, with no [last_connected_at]
    key, is read with the timestamp absent and the other fields as stored. *)
Theorem profile_round_trip (c : ConnectionInfo) :
  from_dict (JObj (to_dict c)) = Ok c /\
  from_dict (JObj (delete "last_connected_at" (to_dict c))) =
    Ok (with_timestamp PNone c).
Proof.
  split; [ apply from_dict_to_dict |].
  destruct c. vm_compute. reflexivity.
Qed.

(** X2: what [save_connections] writes, [load_connections] reads back: the
    same profiles in the same order, and never an exception. *)
Theorem save_load_round_trip (l : list ConnectionInfo) :
  load_connections (save_connections l) = Ok l.
Proof.
  unfold load_connections, save_connections. cbn [json_load iterate bind].
  now rewrite comprehension_to_dict.
Qed.

Lemma touch_length now n l : length (touch now n l) = length l.
Proof.
  induction l as [| c l IH]; simpl; [ reflexivity |].
  destruct (py_eq (name c) n); simpl; auto.
Qed.

Lemma touch_names now n l : map name (touch now n l) = map name l.
Proof.
  induction l as [| c l IH]; simpl; [ reflexivity |].
  destruct (py_eq (name c) n); simpl; [ reflexivity | now rewrite IH ].
Qed.

Lemma touch_absent now n l :
  (forall c, In c l -> named n c = false) -> touch now n l = l.
Proof.
  induction l as [| c l IH]; intros H; simpl; [ reflexivity |].
  unfold named in H. rewrite (H c (or_introl eq_refl)).
  rewrite IH; [ reflexivity |]. intros x Hx. apply H. now right.
Qed.

Lemma touch_first now n pre c post :
  (forall x, In x pre -> named n x = false) -> named n c = true ->
  touch now n (pre ++ c :: post) = pre ++ with_timestamp (PStr now) c :: post.
Proof.
  intros Hpre Hc. induction pre as [| x pre IH]; simpl.
  - unfold named in Hc. now rewrite Hc.
  - unfold named in Hpre. rewrite (Hpre x (or_introl eq_refl)).
    rewrite IH; [ reflexivity |]. intros y Hy. apply Hpre. now right.
Qed.

(** X3: [update_connection_timestamp] rewrites the store with the same
    profiles in the same order and under the same names; only the first
    profile that carries the name changes, and only in its timestamp, which
    becomes the current time; when no profile carries the name the list is
    written back as it was. *)
Theorem update_timestamp_effect (now : string) (n : pyval) (s : store)
  (l : list ConnectionInfo) :
  load_connections s = Ok l ->
  exists s',
    update_connection_timestamp now n s = Ok s' /\
    load_connections s' = Ok (touch now n l) /\
    length (touch now n l) = length l /\
    map name (touch now n l) = map name l /\
    ((forall c, In c l -> named n c = false) -> touch now n l = l) /\
    (forall pre c post,
        l = pre ++ c :: post ->
        (forall x, In x pre -> named n x = false) ->
        named n c = true ->
        touch now n l = pre ++ with_timestamp (PStr now) c :: post).
Proof.
  intros Hload. exists (save_connections (touch now n l)).
  unfold update_connection_timestamp. rewrite Hload. cbn [bind].
  split; [ reflexivity |]. split; [ apply load_saved |].
  split; [ apply touch_length |]. split; [ apply touch_names |].
  split; [ apply touch_absent |].
  intros pre c post -> Hpre Hc. now apply touch_first.
Qed.

Lemma update_timestamp_effect_witness :
  load_connections three_profiles = Ok three_loaded /\
  exists s',
    update_connection_timestamp "2024-06-01T08:00:00" (PStr "staging")
                                three_profiles = Ok s' /\
    load_connections s' =
      Ok [profile "legacy" PNone;
          profile "staging" (PStr "2024-06-01T08:00:00");
          profile "production" (PStr "2024-05-17T18:02:11.250000")].
Proof.
  assert (Hload : load_connections three_profiles = Ok three_loaded)
    by (vm_compute; reflexivity).
  split; [ exact Hload |].
  destruct (update_timestamp_effect "2024-06-01T08:00:00" (PStr "staging")
              three_profiles three_loaded Hload) as (s' & Hs' & Hl & _).
  exists s'. split; [ exact Hs' | exact Hl ].
Defined.

(** *** Order of the timestamps *)

Lemma not_ltb_ltb_trans (y m x : string) :
  String.ltb m y = false -> String.ltb m x = true -> String.ltb y x = true.
Proof.
  unfold String.ltb.
  rewrite (compare_as_OT m y), (compare_as_OT m x), (compare_as_OT y x).
  intros Hmy Hmx.
  destruct (String_as_OT.compare m x) eqn:Emx; try discriminate. clear Hmx.
  destruct (String_as_OT.compare_spec y x) as [Heq | Hlt | Hgt]; auto; exfalso.
  - hnf in Heq. subst y. rewrite Emx in Hmy. discriminate.
  - assert (Hlt' : String_as_OT.lt m y)
      by (eapply (StrictOrder_Transitive (R := String_as_OT.lt)); eassumption).
    unfold String_as_OT.lt in Hlt'. rewrite Hlt' in Hmy. discriminate.
Qed.

Lemma ltb_not_ltb (a b : string) :
  String.ltb a b = true -> String.ltb b a = false.
Proof.
  unfold String.ltb. rewrite (String.compare_antisym b a).
  destruct (String.compare a b); simpl; auto; discriminate.
Qed.

Lemma typed_app (a b : list ConnectionInfo) : typed (a ++ b) <-> typed a /\ typed b.
Proof. unfold typed. apply Forall_app. Qed.

(** Where [insert_sorted] leaves the last element of a sorted list. *)
Lemma insert_sorted_last (x m : ConnectionInfo) (s0 : list ConnectionInfo) :
  timestamp_typed x = true -> typed (s0 ++ [m]) ->
  StronglySorted not_after (s0 ++ [m]) ->
  exists r1,
    insert_sorted sort_key x (s0 ++ [m]) =
    Ok (r1 ++ [if String.ltb (timestamp_text m) (timestamp_text x) then x else m]).
Proof.
  intros Hx. induction s0 as [| y s0 IH]; intros Ht Hs.
  - cbn [app insert_sorted].
    apply typed_app in Ht as [_ Hm]. inversion Hm as [| ? ? Hm' _]; subst.
    rewrite (typed_sort_key m Hm'), (typed_sort_key x Hx). cbn [py_lt bind].
    destruct (String.ltb (timestamp_text m) (timestamp_text x)).
    + exists [m]. reflexivity.
    + exists [x]. reflexivity.
  - cbn [app insert_sorted].
    inversion Ht as [| ? ? Hy Ht']; subst.
    inversion Hs as [| ? ? Hs' Hall]; subst.
    rewrite (typed_sort_key y Hy), (typed_sort_key x Hx). cbn [py_lt bind].
    destruct (String.ltb (timestamp_text y) (timestamp_text x)) eqn:Hlt.
    + destruct (IH Ht' Hs') as (r1 & ->). cbn [bind].
      exists (y :: r1). reflexivity.
    + assert (Hym : not_after y m).
      { rewrite List.Forall_forall in Hall. apply Hall.
        apply in_or_app. right. now left. }
      unfold not_after in Hym.
      rewrite (not_ltb_trans _ _ _ Hlt Hym).
      exists (x :: y :: s0). reflexivity.
Qed.

(** The last element of [sorted l]: the latest profile of [l], and among
    equally late ones the one nearest to the end of [l]. *)
Lemma sorted_last (l : list ConnectionInfo) :
  typed l -> l <> [] ->
  exists r0 m pre post,
    sorted sort_key l = Ok (r0 ++ [m]) /\
    l = pre ++ m :: post /\
    (forall x, In x pre -> not_after x m) /\
    (forall x, In x post ->
               String.ltb (timestamp_text x) (timestamp_text m) = true).
Proof.
  induction l as [| x l IH]; intros Ht Hne; [ contradiction |].
  inversion Ht as [| ? ? Hx Ht']; subst.
  destruct l as [| y l'].
  - exists [], x, [], []. repeat split; auto; intros ? [].
  - destruct (IH Ht') as (r0 & m & pre & post & Hsort & Hl & Hpre & Hpost);
      [ discriminate |].
    cbn [sorted]. cbn [sorted] in Hsort. rewrite Hsort. cbn [bind].
    destruct (sorted_typed (y :: l') Ht') as (r & Hr & Hin & Hs).
    cbn [sorted] in Hr. rewrite Hsort in Hr. inversion Hr; subst r.
    assert (Htr : typed (r0 ++ [m])).
    { apply List.Forall_forall. intros c Hc. apply Hin in Hc.
      unfold typed in Ht'. rewrite List.Forall_forall in Ht'. auto. }
    destruct (insert_sorted_last x m r0 Hx Htr Hs) as (r1 & ->).
    destruct (String.ltb (timestamp_text m) (timestamp_text x)) eqn:Hlt.
    + exists r1, x, [], (y :: l'). repeat split; auto; [ intros ? [] |].
      intros c Hc. rewrite Hl in Hc.
      apply in_app_or in Hc as [Hc | [<- | Hc]].
      * eapply not_ltb_ltb_trans; [ apply (Hpre c Hc) | exact Hlt ].
      * exact Hlt.
      * eapply not_ltb_ltb_trans; [| exact Hlt ].
        apply ltb_not_ltb. now apply Hpost.
    + exists r1, m, (x :: pre), post. repeat split; auto.
      * rewrite Hl. reflexivity.
      * intros c [<- | Hc]; [ exact Hlt | now apply Hpre ].
Qed.

(** The profile [get_last_connection] picks from a loaded list. *)
Lemma latest_first (l : list ConnectionInfo) :
  typed l -> l <> [] ->
  exists c rest before after,
    sorted_reverse sort_key l = Ok (c :: rest) /\
    l = before ++ c :: after /\
    (forall x, In x before ->
               String.ltb (timestamp_text x) (timestamp_text c) = true) /\
    (forall x, In x after -> not_after x c).
Proof.
  intros Ht Hne.
  assert (Htr : typed (rev l)).
  { apply List.Forall_forall. intros c Hc. apply in_rev in Hc.
    unfold typed in Ht. rewrite List.Forall_forall in Ht. auto. }
  assert (Hner : rev l <> []).
  { intros E. apply Hne. rewrite <- (rev_involutive l), E. reflexivity. }
  destruct (sorted_last (rev l) Htr Hner)
    as (r0 & m & pre & post & Hsort & Hl & Hpre & Hpost).
  unfold sorted_reverse. rewrite Hsort. cbn [bind].
  rewrite rev_app_distr. cbn [rev app].
  exists m, (rev r0), (rev post), (rev pre). split; [ reflexivity |]. split.
  - rewrite <- (rev_involutive l), Hl, rev_app_distr. cbn [rev].
    rewrite <- app_assoc. reflexivity.
  - split; intros x Hx; rewrite <- in_rev in Hx.
    + now apply Hpost.
    + now apply Hpre.
Qed.

(** X4: among the profiles of a store with the latest timestamp,
    [get_last_connection] returns the one stored first: every profile before
    it in the file is strictly older, none after it is later. *)
Theorem most_recent_is_first_of_latest (s : store) (l : list ConnectionInfo) :
  load_connections s = Ok l ->
  Forall (fun c => timestamp_typed c = true) l ->
  l <> [] ->
  exists c before after,
    get_last_connection s = Ok (Some c) /\
    l = before ++ c :: after /\
    (forall x, In x before ->
               String.ltb (timestamp_text x) (timestamp_text c) = true) /\
    (forall x, In x after -> not_after x c).
Proof.
  intros Hload Ht Hne.
  destruct (latest_first l Ht Hne) as (c & rest & before & after & Hs & Hl & Hb & Ha).
  exists c, before, after. split; [| auto ].
  unfold get_last_connection. rewrite Hload. cbn [bind].
  destruct l as [| x l']; [ contradiction |]. rewrite Hs. reflexivity.
Qed.

Lemma most_recent_is_first_of_latest_witness :
  load_connections (save_connections tied_profiles) = Ok tied_profiles /\
  Forall (fun c => timestamp_typed c = true) tied_profiles /\
  tied_profiles <> [] /\
  get_last_connection (save_connections tied_profiles) =
    Ok (Some (profile "alpha" (PStr "2024-05-17T18:02:11"))).
Proof.
  assert (Hload : load_connections (save_connections tied_profiles) = Ok tied_profiles)
    by apply load_saved.
  assert (Ht : Forall (fun c => timestamp_typed c = true) tied_profiles)
    by (repeat constructor).
  assert (Hne : tied_profiles <> []) by discriminate.
  split; [ exact Hload |]. split; [ exact Ht |]. split; [ exact Hne |].
  destruct (most_recent_is_first_of_latest _ _ Hload Ht Hne)
    as (c & before & after & Hget & _).
  vm_compute. reflexivity.
Defined.

Lemma touch_typed now n l : typed l -> typed (touch now n l).
Proof.
  unfold typed. induction 1 as [| c l Hc Hl IH]; simpl; [ constructor |].
  destruct (py_eq (name c) n); constructor; auto.
Qed.

Lemma first_named n (l : list ConnectionInfo) :
  (exists c, In c l /\ named n c = true) ->
  exists pre c post, l = pre ++ c :: post /\
    (forall x, In x pre -> named n x = false) /\ named n c = true.
Proof.
  induction l as [| x l IH]; intros (c & Hin & Hc); [ destruct Hin |].
  destruct (named n x) eqn:Hx.
  - exists [], x, l. repeat split; auto. intros ? [].
  - destruct IH as (pre & c' & post & -> & Hpre & Hc').
    { destruct Hin as [<- | Hin]; [ congruence | eauto ]. }
    exists (x :: pre), c', post. repeat split; auto.
    intros y [<- | Hy]; auto.
Qed.

(** X5: once [update_connection_timestamp] has stamped a profile with a
    time later than every timestamp of the store, [get_last_connection]
    returns that profile: the first one under the name, with the new
    timestamp and its other fields untouched. *)
Theorem touched_profile_is_most_recent (now : string) (n : pyval) (s : store)
  (l : list ConnectionInfo) :
  load_connections s = Ok l ->
  Forall (fun c => timestamp_typed c = true) l ->
  (forall c, In c l -> String.ltb (timestamp_text c) now = true) ->
  (exists c, In c l /\ named n c = true) ->
  exists s' pre c post,
    update_connection_timestamp now n s = Ok s' /\
    l = pre ++ c :: post /\
    (forall x, In x pre -> named n x = false) /\
    named n c = true /\
    get_last_connection s' = Ok (Some (with_timestamp (PStr now) c)).
Proof.
  intros Hload Ht Hnow Hex.
  destruct (first_named n l Hex) as (pre & c & post & Hl & Hpre & Hc).
  exists (save_connections (touch now n l)), pre, c, post.
  split; [ unfold update_connection_timestamp; now rewrite Hload |].
  split; [ exact Hl |]. split; [ exact Hpre |]. split; [ exact Hc |].
  unfold get_last_connection. rewrite load_saved. cbn [bind].
  assert (Htouch : touch now n l = pre ++ with_timestamp (PStr now) c :: post)
    by (rewrite Hl; now apply touch_first).
  assert (Hne : touch now n l <> []).
  { rewrite Htouch. destruct pre; discriminate. }
  destruct (latest_first (touch now n l) (touch_typed now n l Ht) Hne)
    as (m & rest & before & after & Hs & Hsplit & Hb & Ha).
  destruct (touch now n l) as [| y l'] eqn:El; [ contradiction |].
  rewrite Hs. cbn [bind head]. do 2 f_equal.
  assert (Hnonempty : truthy_str now = true).
  { destruct now; [| reflexivity ].
    destruct Hex as (c0 & Hin & _). specialize (Hnow c0 Hin).
    destruct (timestamp_text c0); discriminate. }
  assert (Htext : timestamp_text (with_timestamp (PStr now) c) = now).
  { unfold timestamp_text, sort_key, py_or, with_timestamp. cbn.
    now rewrite Hnonempty. }
  assert (Hold : forall x, In x pre \/ In x post ->
                           String.ltb (timestamp_text x) now = true).
  { intros x Hx. apply Hnow. rewrite Hl. apply in_or_app.
    destruct Hx; [ now left | right; now right ]. }
  assert (Hinm : In m (pre ++ with_timestamp (PStr now) c :: post)).
  { rewrite <- Htouch, Hsplit. apply in_or_app. right. now left. }
  assert (Hint : In (with_timestamp (PStr now) c) (before ++ m :: after)).
  { rewrite <- Hsplit, Htouch. apply in_or_app. right. now left. }
  apply in_app_or in Hinm as [Hm | [Hm | Hm]]; [| now symmetry |]; exfalso.
  - assert (Hlt := Hold m (or_introl Hm)).
    apply in_app_or in Hint as [Hi | [Hi | Hi]].
    + specialize (Hb _ Hi). rewrite Htext in Hb.
      apply ltb_not_ltb in Hb. congruence.
    + rewrite Hi in Hlt. rewrite Htext, ltb_irrefl in Hlt. discriminate.
    + specialize (Ha _ Hi). unfold not_after in Ha. rewrite Htext in Ha. congruence.
  - assert (Hlt := Hold m (or_intror Hm)).
    apply in_app_or in Hint as [Hi | [Hi | Hi]].
    + specialize (Hb _ Hi). rewrite Htext in Hb.
      apply ltb_not_ltb in Hb. congruence.
    + rewrite Hi in Hlt. rewrite Htext, ltb_irrefl in Hlt. discriminate.
    + specialize (Ha _ Hi). unfold not_after in Ha. rewrite Htext in Ha. congruence.
Qed.

Lemma touched_profile_is_most_recent_witness :
  load_connections three_profiles = Ok three_loaded /\
  exists s',
    update_connection_timestamp "2024-06-01T08:00:00" (PStr "legacy")
                                three_profiles = Ok s' /\
    get_last_connection s' =
      Ok (Some (profile "legacy" (PStr "2024-06-01T08:00:00"))).
Proof.
  assert (Hload : load_connections three_profiles = Ok three_loaded)
    by (vm_compute; reflexivity).
  split; [ exact Hload |].
  destruct (touched_profile_is_most_recent "2024-06-01T08:00:00" (PStr "legacy")
              three_profiles three_loaded Hload)
    as (s' & pre & c & post & Hs' & Hl & Hpre & Hc & Hget).
  - repeat constructor.
  - intros c [<- | [<- | [<- | []]]]; reflexivity.
  - exists (profile "legacy" PNone). split; [ now left | reflexivity ].
  - exists s'. split; [ exact Hs' |].
    rewrite Hget. do 2 f_equal.
    destruct pre as [| p0 pre].
    + inversion Hl; subst. reflexivity.
    + exfalso. inversion Hl; subst p0.
      specialize (Hpre (profile "legacy" PNone) (or_introl eq_refl)).
      discriminate Hpre.
Defined.

End ProfileFacts.

(** ** The session: queries, catalogue, transactions *)

Section SessionMore.
Import Py Value Store Session Catalogue Samples.

(** The statement [execute_query] hands to its cursor. *)
Lemma execute_query_cases (drv : Driver) (query : string) (w : World)
  (c : Connection) :
  conn (db w) = Some c ->
  let stmt := {| text := snd (prepare query); params := [];
                 cursor_name := if fst (prepare query)
                                then Some "pgcustom_cursor" else None |} in
  match pg_execute drv (durable (srv w)) (txn c) stmt with
  | Failed msg =>
      execute_query drv query w =
      (Ok (failed_query msg),
       rollback {| db := db w; srv := log (EvExecute stmt) (srv w) |})
  | Done cur =>
      exists r,
        execute_query drv query w =
        (Ok r,
         {| db := {| conn := Some {| closed := closed c; txn := txn c ++ [stmt] |};
                     info := info (db w) |};
            srv := log (EvExecute stmt) (srv w) |}) /\
        error r = None /\
        (fst (prepare query) = false ->
         rows r = [] /\ columns r = [] /\ column_types r = [] /\
         rowcount r = cur_rowcount cur) /\
        (fst (prepare query) = true ->
         rows r = fetchall cur /\
         rowcount r = Z.of_nat (length (fetchall cur)) /\
         length (columns r) = length (column_types r))
  end.
Proof.
  intros Hc stmt. subst stmt. unfold execute_query. rewrite Hc.
  destruct (prepare query) as [is_select text0]. cbn [fst snd].
  unfold execute.
  destruct is_select;
    match goal with
    | |- context [pg_execute ?d ?a ?b ?s] =>
        destruct (pg_execute d a b s) as [cur | msg]
    end; try reflexivity.
  - eexists. split; [ reflexivity |]. cbn.
    split; [ reflexivity |]. split; [ discriminate |]. intros _.
    split; [ reflexivity |]. split; [ reflexivity |].
    now rewrite !length_map.
  - eexists. split; [ reflexivity |]. cbn.
    split; [ reflexivity |]. split; [| discriminate ]. intros _.
    repeat split; reflexivity.
Qed.

(** X6: [execute_query] never raises. Without a connection it answers
    [Not connected] and sends nothing. When the server rejects the statement
    it returns the error text with no rows, no columns and a zero count, and
    rolls back the whole open transaction: statements executed before the
    failing one are discarded with it and nothing becomes durable. *)
Theorem execute_query_failure (drv : Driver) (query : string) (w : World) :
  (exists r, fst (execute_query drv query w) = Ok r) /\
  (conn (db w) = None ->
   execute_query drv query w = (Ok (failed_query "Not connected"), w)) /\
  (forall c msg,
      conn (db w) = Some c ->
      pg_execute drv (durable (srv w)) (txn c)
        {| text := snd (prepare query); params := [];
           cursor_name := if fst (prepare query)
                          then Some "pgcustom_cursor" else None |} = Failed msg ->
      let r := execute_query drv query w in
      fst r = Ok {| rows := []; columns := []; column_types := [];
                    error := Some msg; rowcount := 0 |} /\
      pending (snd r) = [] /\
      conn (db (snd r)) = Some {| closed := closed c; txn := [] |} /\
      durable (srv (snd r)) = durable (srv w)).
Proof.
  split; [| split ].
  - destruct (conn (db w)) as [c |] eqn:Hc.
    + pose proof (execute_query_cases drv query w c Hc) as H. cbn zeta in H.
      destruct (pg_execute drv _ _ _).
      * destruct H as (r & -> & _). eexists. reflexivity.
      * rewrite H. eexists. reflexivity.
    + unfold execute_query. rewrite Hc. eexists. reflexivity.
  - intros Hc. unfold execute_query. now rewrite Hc.
  - intros c msg Hc Hx r. subst r.
    pose proof (execute_query_cases drv query w c Hc) as H. cbn zeta in H.
    rewrite Hx in H. rewrite H. unfold rollback, pending. cbn. rewrite Hc. cbn.
    repeat split; reflexivity.
Qed.

(** X7: what [execute_query] returns when the server accepts the statement.
    A text that is not taken for a SELECT gives no rows, no columns and no
    column types, whatever the cursor holds, and the cursor's row count; a
    SELECT gives the fetched rows, their number as the count, and as many
    column types as columns. Either way the statement stays in the open
    transaction. *)
Theorem execute_query_result_shape (drv : Driver) (query : string) (w : World)
  (c : Connection) (cur : Cursor) :
  conn (db w) = Some c ->
  pg_execute drv (durable (srv w)) (txn c)
    {| text := snd (prepare query); params := [];
       cursor_name := if fst (prepare query)
                      then Some "pgcustom_cursor" else None |} = Done cur ->
  exists r,
    fst (execute_query drv query w) = Ok r /\
    error r = None /\
    (fst (prepare query) = false ->
     rows r = [] /\ columns r = [] /\ column_types r = [] /\
     rowcount r = cur_rowcount cur) /\
    (fst (prepare query) = true ->
     rows r = fetchall cur /\
     rowcount r = Z.of_nat (length (fetchall cur)) /\
     length (columns r) = length (column_types r)) /\
    pending (snd (execute_query drv query w)) =
      txn c ++ [{| text := snd (prepare query); params := [];
                   cursor_name := if fst (prepare query)
                                  then Some "pgcustom_cursor" else None |}] /\
    durable (srv (snd (execute_query drv query w))) = durable (srv w).
Proof.
  intros Hc Hx.
  pose proof (execute_query_cases drv query w c Hc) as H. cbn zeta in H.
  rewrite Hx in H. destruct H as (r & Hr & Herr & Hdml & Hsel).
  exists r. rewrite Hr. cbn [fst snd].
  split; [ reflexivity |]. split; [ exact Herr |]. split; [ exact Hdml |].
  split; [ exact Hsel |]. split; reflexivity.
Qed.

Lemma execute_query_result_shape_witness :
  conn (db online) = Some open_connection /\
  exists r,
    fst (execute_query returning "insert into t values (1) returning id" online) = Ok r /\
    rows r = [] /\ columns r = [].
Proof.
  split; [ reflexivity |].
  destruct (execute_query_result_shape returning
              "insert into t values (1) returning id" online open_connection
              one_row_cursor eq_refl eq_refl)
    as (r & Hr & _ & Hdml & _).
  exists r. split; [ exact Hr |].
  destruct (Hdml eq_refl) as (Hrows & Hcols & _). split; assumption.
Defined.

(** X8: a catalogue query on a session without connection answers the empty
    list and sends nothing. On an open connection a statement the server
    rejects makes the method raise the psycopg error, and the open
    transaction is left as it was: nothing is rolled back here. A statement
    the server accepts joins the open transaction, and the method returns the
    named field of every fetched row, or raises [KeyError] at the first row
    without it. *)
Theorem catalogue_query_behaviour (drv : Driver) (sql : string)
  (args : list pyval) (column : string) (w : World) :
  (conn (db w) = None -> column_query drv sql args column w = (Ok [], w)) /\
  (forall c msg,
      conn (db w) = Some c ->
      pg_execute drv (durable (srv w)) (txn c) (plain sql args) = Failed msg ->
      let r := column_query drv sql args column w in
      fst r = Raise (PsycopgError msg) /\
      db (snd r) = db w /\
      durable (srv (snd r)) = durable (srv w) /\
      trace (srv (snd r)) = trace (srv w) ++ [EvExecute (plain sql args)]) /\
  (forall c cur,
      conn (db w) = Some c ->
      pg_execute drv (durable (srv w)) (txn c) (plain sql args) = Done cur ->
      let r := column_query drv sql args column w in
      fst r = comprehension (field column) (fetchall cur) /\
      pending (snd r) = txn c ++ [plain sql args] /\
      durable (srv (snd r)) = durable (srv w)) /\
  (forall schema table,
      get_databases drv w = column_query drv sql_get_databases [] "datname" w /\
      get_schemas drv w = column_query drv sql_get_schemas [] "schema_name" w /\
      get_tables drv schema w =
        column_query drv sql_get_tables [PStr schema] "table_name" w /\
      get_columns drv schema table w =
        column_query drv sql_get_columns [PStr schema; PStr table] "column_name" w /\
      get_all_columns drv w =
        column_query drv sql_get_all_columns [] "column_name" w /\
      get_primary_keys drv schema table w =
        column_query drv sql_get_primary_keys [PStr table; PStr schema] "attname" w).
Proof.
  split; [| split; [| split; [| intros; repeat split; reflexivity ] ] ].
  - intros Hc. unfold column_query. now rewrite Hc.
  - intros c msg Hc Hx r. subst r. unfold column_query, execute.
    rewrite Hc, Hx. cbn. repeat split; reflexivity.
  - intros c cur Hc Hx r. subst r. unfold column_query, execute, pending.
    rewrite Hc, Hx. cbn. repeat split; reflexivity.
Qed.

(** X9: on a session its methods have brought about, [switch_database]
    does nothing when there is no active profile. Otherwise it reconnects with
    the same name, host, port, user and password and the new database name,
    the timestamp dropped; the statements of the open transaction are lost,
    not committed; and when the new connection cannot be opened the session is
    left disconnected. *)
Theorem switch_database_effect (drv : Driver) (new_dbname : string) (w : World) :
  reachable drv w ->
  (info (db w) = None -> switch_database drv new_dbname w = (Ok tt, w)) /\
  (forall i,
      info (db w) = Some i ->
      let new_info :=
        {| name := name i; host := host i; port := port i;
           dbname := PStr new_dbname; user := user i;
           password := password i; last_connected_at := PNone |} in
      let r := switch_database drv new_dbname w in
      durable (srv (snd r)) = durable (srv w) /\
      pending (snd r) = [] /\
      (pg_connect drv (connection_string new_info) = None ->
       fst r = Ok tt /\
       info (db (snd r)) = Some new_info /\
       conn (db (snd r)) = Some {| closed := false; txn := [] |}) /\
      (forall msg,
          pg_connect drv (connection_string new_info) = Some msg ->
          fst r = Raise (PsycopgError msg) /\
          info (db (snd r)) = None /\
          is_connected (db (snd r)) = false)).
Proof.
  intros Hreach. split.
  - intros Hi. unfold switch_database. now rewrite Hi.
  - intros i Hi new_info r. subst r. unfold switch_database. rewrite Hi.
    fold new_info. unfold connect, disconnect, pending, is_connected.
    destruct (conn (db w)) as [c |] eqn:Hc.
    2: { pose proof (reachable_info drv w Hreach Hc) as Hnone. congruence. }
    destruct (pg_connect drv (connection_string new_info)) as [msg |] eqn:Hp;
      cbn.
    all: split; [ reflexivity |]; split; [ reflexivity |]; split.
    all: try (intros H; discriminate H).
    all: try (intros msg' H; discriminate H).
    + intros msg' H. inversion H; subst. repeat split; reflexivity.
    + intros _. repeat split; reflexivity.
Qed.

Lemma switch_database_effect_witness :
  reachable picky (snd (connect picky local_profile fresh)) /\
  fst (switch_database picky "sales" (snd (connect picky local_profile fresh))) = Ok tt /\
  info (db (snd (switch_database picky "sales"
                   (snd (connect picky local_profile fresh))))) =
    Some {| name := PStr "local"; host := PStr "localhost"; port := PInt 5432;
            dbname := PStr "sales"; user := PStr "postgres";
            password := PStr ""; last_connected_at := PNone |}.
Proof.
  assert (Hr : reachable picky (snd (connect picky local_profile fresh))).
  { apply reach_connect, reach_init. }
  split; [ exact Hr |].
  destruct (switch_database_effect picky "sales" _ Hr) as [_ H].
  destruct (H local_profile eq_refl) as (_ & _ & Hok & _).
  destruct (Hok eq_refl) as (Hfst & Hinfo & _).
  split; [ exact Hfst | exact Hinfo ].
Defined.

(** The catalogue methods keep a session among those its methods bring
    about. *)
Lemma catalogue_reachable (drv : Driver) (sql : string) (args : list pyval)
  (column : string) (w : World) :
  reachable drv w ->
  reachable drv (snd (column_query drv sql args column w)) /\
  reachable drv (snd (get_all_tables drv w)).
Proof.
  intros H. unfold column_query, get_all_tables.
  destruct (conn (db w)) as [c |] eqn:Hc; [| split; exact H ].
  split.
  - pose proof (reach_catalogue drv w c (plain sql args) H Hc) as Hr.
    destruct (execute drv (plain sql args) c w) as [[cur | e] w']; exact Hr.
  - pose proof (reach_catalogue drv w c (plain sql_get_all_tables []) H Hc) as Hr.
    destruct (execute drv (plain sql_get_all_tables []) c w) as [[cur | e] w'];
      exact Hr.
Qed.

End SessionMore.

Section SessionExamples.
Import Py Value Session Catalogue Samples.

Lemma execute_query_failure_witness :
  fst (execute_query unwilling "select 1" online) =
    Ok (failed_query "permission denied") /\
  pending (snd (execute_query unwilling "select 1" online)) = [].
Proof.
  destruct (execute_query_failure unwilling "select 1" online) as (_ & _ & H).
  destruct (H open_connection "permission denied" eq_refl eq_refl)
    as (H1 & H2 & _).
  split; assumption.
Defined.

Lemma catalogue_query_behaviour_witness :
  fst (get_primary_keys unwilling "public" "items" online) =
    Raise (PsycopgError "permission denied") /\
  db (snd (get_primary_keys unwilling "public" "items" online)) = db online.
Proof.
  destruct (catalogue_query_behaviour unwilling sql_get_primary_keys
              [PStr "items"; PStr "public"] "attname" online)
    as (_ & Hfail & _).
  destruct (Hfail open_connection "permission denied" eq_refl eq_refl)
    as (H1 & H2 & _).
  split; assumption.
Defined.

End SessionExamples.

(** ** The resolver on generated queries *)

Section TreeFacts.
Import Py Re Resolver Tree.

Lemma run_many_stop (p : ascii -> bool) (s rest : string) (cs : caps)
  (k : string -> caps -> option caps) (m : caps) :
  (forall c, In c (list_ascii_of_string s) -> p c = true) ->
  match rest with String c _ => p c = false | EmptyString => True end ->
  k rest cs = Some m ->
  run (Many p) (s +:+ rest) cs k = Some m.
Proof.
  intros Hs Hrest Hk. induction s as [| a s IH].
  - cbn [String.append]. destruct rest as [| c r]; simpl; [ exact Hk |].
    simpl in Hrest. rewrite Hrest. exact Hk.
  - cbn [String.append]. simpl run.
    rewrite (Hs a (or_introl eq_refl)).
    change ((fix more (s0 : string) : option caps :=
               match s0 with
               | EmptyString => k s0 cs
               | String c s' =>
                   if p c
                   then match more s' with
                        | Some m0 => Some m0
                        | None => k s0 cs
                        end
                   else k s0 cs
               end) (s +:+ rest))
      with (run (Many p) (s +:+ rest) cs k).
    rewrite IH; [ reflexivity |].
    intros c Hc. apply Hs. now right.
Qed.

Lemma substring_app_l (a b : string) :
  String.substring 0 (String.length a) (a +:+ b) = a.
Proof.
  induction a as [| c a IH]; simpl.
  - destruct b; reflexivity.
  - now rewrite IH.
Qed.

Lemma string_length_app (a b : string) :
  String.length (a +:+ b) = String.length a + String.length b.
Proof. induction a as [| c a IH]; simpl; [ reflexivity | now rewrite IH ]. Qed.

Lemma consumed_app (a b : string) : consumed (a +:+ b) b = a.
Proof.
  unfold consumed. rewrite string_length_app.
  replace (String.length a + String.length b - String.length b)
    with (String.length a) by lia.
  apply substring_app_l.
Qed.

Lemma run_Seq (a b : re) (s : string) (cs : caps)
  (k : string -> caps -> option caps) :
  run (Seq a b) s cs k = run a s cs (fun s' cs' => run b s' cs' k).
Proof. reflexivity. Qed.

Lemma run_Chr_cons (p : ascii -> bool) (c : ascii) (s : string) (cs : caps)
  (k : string -> caps -> option caps) :
  run (Chr p) (String c s) cs k = if p c then k s cs else None.
Proof. reflexivity. Qed.

Lemma run_Group (n : nat) (a : re) (s : string) (cs : caps)
  (k : string -> caps -> option caps) :
  run (Group n a) s cs k =
  run a s cs (fun s' cs' => k s' ((n, consumed s s') :: cs')).
Proof. reflexivity. Qed.

Lemma is_dq_dq : is_dq dq = true.
Proof. reflexivity. Qed.

Lemma unquoted_not_dq (s : string) (c : ascii) :
  unquoted s -> In c (list_ascii_of_string s) -> not_dq c = true.
Proof.
  intros Hs Hc. unfold not_dq, is_dq.
  destruct (Ascii.eqb c dq) eqn:E; [| reflexivity ].
  apply Ascii.eqb_eq in E. exfalso. now apply (Hs c).
Qed.

(** A quoted identifier is matched by [quoted n], the text between the
    quotes going to group [n]. *)
Lemma quoted_matches (n : nat) (s rest : string) (cs : caps)
  (k : string -> caps -> option caps) (m : caps) :
  s <> "" -> unquoted s ->
  k rest ((n, s) :: cs) = Some m ->
  run (quoted n) (String dq (s +:+ String dq rest)) cs k = Some m.
Proof.
  intros Hne Hs Hk.
  destruct s as [| a s]; [ contradiction |].
  unfold quoted, seq, plus. cbn [fold_left].
  rewrite !run_Seq, run_Chr_cons, is_dq_dq. cbv beta.
  rewrite run_Group.
  change (String a s +:+ String dq rest)
    with (String a (s +:+ String dq rest)).
  rewrite run_Seq, run_Chr_cons.
  rewrite (unquoted_not_dq _ a Hs (or_introl eq_refl)). cbv beta.
  apply run_many_stop.
  - intros c Hc. apply (unquoted_not_dq _ c Hs). now right.
  - reflexivity.
  - rewrite run_Chr_cons, is_dq_dq.
    change (String a (s +:+ String dq rest))
      with (String a s +:+ String dq rest).
    rewrite consumed_app. exact Hk.
Qed.

Lemma run_Many_stop_cons (p : ascii -> bool) (c : ascii) (s : string)
  (cs : caps) (k : string -> caps -> option caps) :
  p c = false -> run (Many p) (String c s) cs k = k (String c s) cs.
Proof. intros H. simpl. now rewrite H. Qed.

Lemma append_cons (x : ascii) (a b : string) :
  String x a +:+ b = String x (a +:+ b).
Proof. reflexivity. Qed.

Lemma append_nil (b : string) : "" +:+ b = b.
Proof. reflexivity. Qed.

Lemma append_assoc (a b c : string) : (a +:+ b) +:+ c = a +:+ b +:+ c.
Proof.
  induction a as [| x a IH]; [ reflexivity |].
  rewrite !append_cons. f_equal. exact IH.
Qed.

Ltac step_chr :=
  rewrite run_Chr_cons;
  match goal with
  | |- context [if ?b then _ else _] =>
      let v := eval vm_compute in b in change b with v
  end;
  cbv beta iota.

(** The first pattern on the text from FROM on. *)
Lemma quoted_pattern_here (schema table tail : string) :
  schema <> "" -> table <> "" -> unquoted schema -> unquoted table ->
  match_here pat_quoted_schema_table
    ("FROM " +:+ in_quotes schema +:+ "." +:+ in_quotes table +:+ tail) =
  Some [(2, table); (1, schema)].
Proof.
  intros Hs Ht Hus Hut.
  unfold in_quotes, dqs. rewrite !append_assoc.
  repeat rewrite ?append_cons, ?append_nil.
  unfold match_here, pat_quoted_schema_table, seq, from_kw, dot, plus.
  cbn [fold_left seq lit]. unfold lit_char.
  do 5 (rewrite ?run_Seq; step_chr).
  rewrite run_Many_stop_cons by reflexivity.
  apply quoted_matches; [ assumption | assumption |].
  rewrite !run_Seq.
  rewrite run_Many_stop_cons by reflexivity.
  step_chr.
  rewrite run_Many_stop_cons by reflexivity.
  apply quoted_matches; [ assumption | assumption |].
  reflexivity.
Qed.

Lemma no_from_here (c : ascii) (s : string) :
  Ascii.eqb (upper_char c) "F"%char = false ->
  match_here pat_quoted_schema_table (String c s) = None.
Proof.
  intros H.
  unfold match_here, pat_quoted_schema_table, seq, from_kw.
  cbn [fold_left lit]. unfold lit_char.
  rewrite !run_Seq, run_Chr_cons.
  change (upper_char "F") with "F"%char. now rewrite H.
Qed.

Lemma search_skip (r : re) (c : ascii) (s : string) :
  match_here r (String c s) = None -> search r (String c s) = search r s.
Proof. intros H. simpl. now rewrite H. Qed.

Lemma search_here (r : re) (s : string) (m : caps) :
  match_here r s = Some m -> search r s = Some m.
Proof. intros H. destruct s; simpl; now rewrite H. Qed.

Lemma append_nil_r (a : string) : a +:+ "" = a.
Proof.
  induction a as [| x a IH]; [ reflexivity |].
  rewrite append_cons. f_equal. exact IH.
Qed.

Lemma double_click_query_text (schema table : string) (pk_columns : list string) :
  exists tail,
    double_click_query schema table pk_columns =
    "SELECT * " +:+ "FROM " +:+ in_quotes schema +:+ "." +:+
    in_quotes table +:+ tail.
Proof.
  unfold double_click_query. destruct pk_columns as [| pk pks].
  - exists "". rewrite append_nil_r. reflexivity.
  - eexists. rewrite !append_assoc.
    repeat rewrite ?append_cons, ?append_nil.
    repeat f_equal.
Qed.

(** X11: the query a double click on a table writes in the editor resolves
    back to that table: for a schema and a table name that are not empty and
    hold no double quote, in a text without [ JOIN ], the resolver answers
    with the very schema and table, whatever the key columns of the ORDER BY
    are. *)
Theorem double_click_query_resolves (schema table : string)
  (pk_columns : list string) :
  schema <> "" -> table <> "" -> unquoted schema -> unquoted table ->
  contains " JOIN " (upper (double_click_query schema table pk_columns)) = false ->
  _parse_table_from_query (double_click_query schema table pk_columns) =
  (schema, table).
Proof.
  intros Hs Ht Hus Hut Hjoin.
  unfold _parse_table_from_query. rewrite Hjoin.
  destruct (double_click_query_text schema table pk_columns) as [tail ->].
  unfold patterns. cbn [try_patterns].
  assert (Hfound : search pat_quoted_schema_table
                     ("SELECT * " +:+ "FROM " +:+ in_quotes schema +:+ "." +:+
                      in_quotes table +:+ tail) =
                   Some [(2, table); (1, schema)]).
  { repeat rewrite ?append_cons, ?append_nil.
    do 9 (rewrite search_skip by (apply no_from_here; reflexivity)).
    apply search_here.
    pose proof (quoted_pattern_here schema table tail Hs Ht Hus Hut) as H.
    repeat rewrite ?append_cons, ?append_nil in H. exact H. }
  rewrite Hfound. reflexivity.
Qed.

Lemma double_click_query_resolves_witness :
  unquoted "public" /\ unquoted "items" /\
  contains " JOIN " (upper (double_click_query "public" "items" ["id"])) = false /\
  _parse_table_from_query (double_click_query "public" "items" ["id"]) =
  ("public", "items").
Proof.
  assert (Hp : unquoted "public").
  { intros c Hc. simpl in Hc.
    repeat (destruct Hc as [<- | Hc]; [ discriminate |]). destruct Hc. }
  assert (Hi : unquoted "items").
  { intros c Hc. simpl in Hc.
    repeat (destruct Hc as [<- | Hc]; [ discriminate |]). destruct Hc. }
  split; [ exact Hp |]. split; [ exact Hi |]. split; [ reflexivity |].
  apply double_click_query_resolves; try assumption; try discriminate.
  reflexivity.
Defined.

End TreeFacts.

(** ** Expanding a node of the tree *)

Section ExpandFacts.
Import Py Value Store Session Catalogue Tree.

Lemma connect_effect (drv : Driver) (i : ConnectionInfo) (w : World) :
  durable (srv (snd (connect drv i w))) = durable (srv w) /\
  pending (snd (connect drv i w)) = [] /\
  (forall u, fst (connect drv i w) = Ok u ->
     info (db (snd (connect drv i w))) = Some i /\
     is_connected (db (snd (connect drv i w))) = true).
Proof.
  unfold connect, disconnect, pending.
  destruct (conn (db w)) as [c |] eqn:Hc;
    destruct (pg_connect drv (connection_string i)); cbn;
    rewrite ?Hc; repeat split; try reflexivity; discriminate.
Qed.

Lemma column_query_effect (drv : Driver) (sql : string) (args : list pyval)
  (column : string) (w : World) :
  durable (srv (snd (column_query drv sql args column w))) = durable (srv w) /\
  (pending (snd (column_query drv sql args column w)) = pending w \/
   pending (snd (column_query drv sql args column w)) =
     pending w ++ [plain sql args]).
Proof.
  unfold column_query, execute, pending.
  destruct (conn (db w)) as [c |] eqn:Hc; [| cbn; rewrite ?Hc; auto ].
  destruct (pg_execute drv (durable (srv w)) (txn c) (plain sql args)); cbn.
  - split; [ reflexivity | now right ].
  - rewrite ?Hc. split; [ reflexivity | now left ].
Qed.

Lemma load_children_effect (drv : Driver) (dbname sql : string)
  (args : list pyval) (column : string) (orig : option ConnectionInfo)
  (w : World) (cur : ConnectionInfo) :
  info (db w) = Some cur ->
  let r := load_children drv dbname orig (column_query drv sql args column) w in
  durable (srv (snd r)) = durable (srv w) /\
  (pending (snd r) = [] \/ pending (snd r) = [plain sql args]) /\
  (forall names i,
     fst r = Ok names -> orig = Some i ->
     pending (snd r) = [] /\ info (db (snd r)) = Some i /\
     is_connected (db (snd r)) = true).
Proof.
  intros Hi. cbv zeta. unfold load_children, switch_database. rewrite Hi.
  set (new_info := {| name := name cur; host := host cur; port := port cur;
                      dbname := PStr dbname; user := user cur;
                      password := password cur; last_connected_at := PNone |}).
  destruct (connect_effect drv new_info w) as (Hd1 & Hp1 & _).
  destruct (connect drv new_info w) as [[u | e] w1]; cbn [fst snd] in *.
  2: { split; [ exact Hd1 |]. split; [ now left |]. discriminate. }
  destruct (column_query_effect drv sql args column w1) as (Hd2 & Hp2).
  rewrite Hp1 in Hp2. cbn [app] in Hp2. rewrite Hd1 in Hd2.
  destruct (column_query drv sql args column w1) as [[names | e] w2];
    cbn [fst snd] in *.
  2: { split; [ exact Hd2 |]. split; [ exact Hp2 |]. discriminate. }
  destruct orig as [i |].
  - destruct (connect_effect drv i w2) as (Hd3 & Hp3 & Hok).
    rewrite Hd2 in Hd3.
    destruct (connect drv i w2) as [[u' | e] w3]; cbn [fst snd] in *.
    + split; [ exact Hd3 |]. split; [ now left |].
      intros names' i' _ Hi'. inversion Hi'; subst i'.
      destruct (Hok u' eq_refl). auto.
    + split; [ exact Hd3 |]. split; [ now left |]. discriminate.
  - split; [ exact Hd2 |]. split; [ exact Hp2 |]. discriminate.
Qed.

(** X23: expanding a database or a schema node of the tree on a connected
    session gives up the open transaction. Whatever the outcome, nothing
    becomes durable and no statement executed before the expansion is still
    pending afterwards: at most the catalogue query itself is. When the
    expansion succeeds and the window remembers a profile, the session ends
    connected with that profile and an empty transaction. *)
Theorem expand_discards_transaction (drv : Driver) (dbname schema : string)
  (orig : option ConnectionInfo) (w : World) (cur : ConnectionInfo) :
  info (db w) = Some cur ->
  (let r := expand_database drv dbname orig w in
   durable (srv (snd r)) = durable (srv w) /\
   (pending (snd r) = [] \/ pending (snd r) = [plain sql_get_schemas []]) /\
   (forall names i,
      fst r = Ok names -> orig = Some i ->
      pending (snd r) = [] /\ info (db (snd r)) = Some i /\
      is_connected (db (snd r)) = true)) /\
  (let r := expand_schema drv dbname schema orig w in
   durable (srv (snd r)) = durable (srv w) /\
   (pending (snd r) = [] \/
    pending (snd r) = [plain sql_get_tables [PStr schema]]) /\
   (forall names i,
      fst r = Ok names -> orig = Some i ->
      pending (snd r) = [] /\ info (db (snd r)) = Some i /\
      is_connected (db (snd r)) = true)).
Proof.
  intros Hi. split.
  - apply (load_children_effect drv dbname sql_get_schemas [] "schema_name"
             orig w cur Hi).
  - apply (load_children_effect drv dbname sql_get_tables [PStr schema]
             "table_name" orig w cur Hi).
Qed.

Lemma expand_discards_transaction_witness :
  pending Samples.unsaved_work = [plain "DELETE FROM items" []] /\
  fst (expand_database Samples.willing "sales" (Some Samples.local_profile)
         Samples.unsaved_work) = Ok [] /\
  pending (snd (expand_database Samples.willing "sales"
                  (Some Samples.local_profile) Samples.unsaved_work)) = [] /\
  durable (srv (snd (expand_database Samples.willing "sales"
                       (Some Samples.local_profile) Samples.unsaved_work))) = [].
Proof.
  destruct (expand_discards_transaction Samples.willing "sales" "public"
              (Some Samples.local_profile) Samples.unsaved_work
              Samples.local_profile eq_refl) as [(Hd & _ & Hok) _].
  assert (Hr : fst (expand_database Samples.willing "sales"
                      (Some Samples.local_profile) Samples.unsaved_work) = Ok [])
    by (vm_compute; reflexivity).
  destruct (Hok [] Samples.local_profile Hr eq_refl) as (Hp & _).
  split; [ reflexivity |]. split; [ exact Hr |]. split; [ exact Hp |].
  rewrite Hd. reflexivity.
Defined.

End ExpandFacts.

(** ** Before a query starts *)

Section ExecutionFacts.
Import Py Value Session Grid Window Resolver Execution Samples.

Lemma rstrip_idempotent (P : ascii -> bool) (s : string) :
  rstrip P (rstrip P s) = rstrip P s.
Proof.
  induction s as [| c r IH]; [ reflexivity |].
  cbn [rstrip].
  destruct (is_empty (rstrip P r) && P c) eqn:E; [ reflexivity |].
  cbn [rstrip]. rewrite IH, E. reflexivity.
Qed.

Lemma lstrip_idempotent (P : ascii -> bool) (s : string) :
  lstrip P (lstrip P s) = lstrip P s.
Proof.
  induction s as [| c r IH]; [ reflexivity |].
  cbn [lstrip]. destruct (P c) eqn:E; [ exact IH |].
  cbn [lstrip]. rewrite E. reflexivity.
Qed.

Lemma lstrip_rstrip (P : ascii -> bool) (s : string) :
  lstrip P s = s -> lstrip P (rstrip P s) = rstrip P s.
Proof.
  destruct s as [| c r]; [ reflexivity |].
  cbn [lstrip rstrip]. destruct (P c) eqn:E.
  - intros H. rewrite andb_true_r.
    destruct (is_empty (rstrip P r)); [ reflexivity |].
    cbn [lstrip]. rewrite E.
    assert (Hlen : String.length (lstrip P r) <= String.length r).
    { clear. induction r as [| d r IH]; cbn [lstrip]; [ lia |].
      destruct (P d); cbn [String.length]; lia. }
    rewrite H in Hlen. cbn [String.length] in Hlen. lia.
  - intros _. rewrite andb_false_r. cbn [lstrip]. rewrite E. reflexivity.
Qed.

Lemma strip_idempotent (s : string) : strip (strip s) = strip s.
Proof.
  unfold strip.
  rewrite (lstrip_rstrip is_space (lstrip is_space s)).
  - apply rstrip_idempotent.
  - apply lstrip_idempotent.
Qed.

Lemma select_clean_semicolon : clean is_semicolon "SELECT".
Proof.
  intros c Hc Hin. revert Hc Hin.
  destruct c as [[] [] [] [] [] [] [] []]; vm_compute; intros Hc Hin;
    try discriminate; intuition discriminate.
Qed.

(** The session takes a trimmed text for a SELECT exactly when its
    upper-cased form starts with SELECT. *)
Lemma prepare_select (q : string) :
  fst (prepare (strip q)) = startswith "SELECT" (upper (strip q)).
Proof.
  unfold prepare. rewrite strip_idempotent.
  set (t := rstrip is_semicolon (strip q)).
  assert (H : startswith "SELECT" (upper t) = startswith "SELECT" (upper (strip q))).
  { unfold startswith, t. apply prefix_upper_rstrip, select_clean_semicolon. }
  rewrite H. destruct (startswith "SELECT" (upper (strip q)) && _); reflexivity.
Qed.


(** X12: when [_execute_query] starts no query, nothing is lost. Without a
    connection, with a query still running, with an editor that holds only
    white space, or when the user answers No to the warning about uncommitted
    edits, the method returns with the model, its pending edits and the
    open transaction exactly as they were. *)
Theorem unstarted_query_changes_nothing (running : bool) (editor_text : string)
  (reply : Reply) (schema table : string) (m : ResultsModel) (w : World) :
  (is_connected (db w) = false \/ running = true \/ strip editor_text = "" \/
   (startswith "SELECT" (upper (strip editor_text)) = true /\
    has_edits m = true /\ reply = No)) ->
  exists ui,
    _execute_query running editor_text reply schema table m w = (None, m, w, ui) /\
    ui <> [] /\
    forall e, In e ui -> exists a b, e = StatusMessage a \/ e = Warning a b.
Proof.
  intros H. unfold _execute_query.
  destruct (is_connected (db w)) eqn:Hc; cbn [negb].
  2: { eexists. split; [ reflexivity |]. split; [ discriminate |].
       intros e [<- | []]. eexists. exists EmptyString. left. reflexivity. }
  destruct running.
  { eexists. split; [ reflexivity |]. split; [ discriminate |].
    intros e [<- | []]. eexists. exists EmptyString. left. reflexivity. }
  destruct (strip editor_text) as [| a q] eqn:Hq; cbn [is_empty].
  { eexists. split; [ reflexivity |]. split; [ discriminate |].
    intros e [<- | []]. eexists. exists EmptyString. left. reflexivity. }
  destruct H as [H | [H | [H | (Hs & He & Hr)]]]; try discriminate.
  rewrite Hs, He. cbn [andb]. unfold _check_uncommitted_changes.
  rewrite He, Hr. eexists. split; [ reflexivity |]. split; [ discriminate |].
  intros e [<- | []]. do 2 eexists. right. reflexivity.
Qed.

Lemma unstarted_query_changes_nothing_witness :
  exists ui,
    _execute_query false "select 1" No "" "" edited_grid online =
      (None, edited_grid, online, ui) /\ ui <> [].
Proof.
  destruct (unstarted_query_changes_nothing false "select 1" No "" ""
              edited_grid online) as (ui & H & Hne & _).
  - right; right; right. vm_compute. repeat split; reflexivity.
  - exists ui. split; assumption.
Defined.

(** X13: a query that [_execute_query] starts is the editor text without
    its surrounding white space, never empty, on an open connection with no
    other query running. Pending edits are discarded, and the open
    transaction rolled back, only when the text starts with SELECT (in any
    case) and the user answered Yes; a text that is not a SELECT starts
    without asking and leaves the pending edits and the transaction in
    place. *)
Theorem started_query_effects (running : bool) (editor_text : string)
  (reply : Reply) (schema table : string) (m : ResultsModel) (w : World)
  (r : Request) (m' : ResultsModel) (w' : World) (ui : list UiEvent) :
  _execute_query running editor_text reply schema table m w =
    (Some r, m', w', ui) ->
  query r = strip editor_text /\ query r <> "" /\
  is_connected (db w) = true /\ running = false /\
  last ui = Some (StatusMessage "Executing...") /\
  (if startswith "SELECT" (upper (strip editor_text)) && has_edits m
   then reply = Yes /\ m' = with_edits [] m /\ w' = rollback w
   else m' = m /\ w' = w /\ ui = [StatusMessage "Executing..."]).
Proof.
  unfold _execute_query.
  destruct (is_connected (db w)) eqn:Hc; cbn [negb]; [| discriminate ].
  destruct running; [ discriminate |].
  destruct (strip editor_text) as [| a q] eqn:Hq; cbn [is_empty];
    [ discriminate |].
  set (sel := startswith "SELECT" (upper (String a q))). clearbody sel.
  destruct (sel && has_edits m) eqn:Hs.
  - apply andb_prop in Hs as [_ He].
    unfold _check_uncommitted_changes. rewrite He.
    destruct reply; [| discriminate ]. cbn.
    destruct (negb (truthy_str table) && sel);
      [ destruct (_parse_table_from_query (String a q)) |];
      intros H; inversion H; subst; cbn [query];
      repeat split; try reflexivity; discriminate.
  - destruct (negb (truthy_str table) && sel);
      [ destruct (_parse_table_from_query (String a q)) |];
      intros H; inversion H; subst; cbn [query];
      repeat split; try reflexivity; discriminate.
Qed.

Lemma started_query_effects_witness :
  _execute_query false " update t set a = 1 " No "" "" edited_grid online =
    (Some {| query := "update t set a = 1"; _pending_schema := "";
             _pending_table := "" |},
     edited_grid, online, [StatusMessage "Executing..."]) /\
  is_connected (db online) = true.
Proof.
  assert (H : _execute_query false " update t set a = 1 " No "" ""
                edited_grid online =
              (Some {| query := "update t set a = 1"; _pending_schema := "";
                       _pending_table := "" |},
               edited_grid, online, [StatusMessage "Executing..."])).
  { vm_compute. reflexivity. }
  split; [ exact H |].
  destruct (started_query_effects _ _ _ _ _ _ _ _ _ _ _ H) as (_ & _ & Hc & _).
  exact Hc.
Defined.

(** X14: the window and the session classify a statement alike. For the
    text the window hands over (the editor text without surrounding white
    space) [execute_query] takes the SELECT path exactly when the window's
    own test, [query.upper().startswith("SELECT")], holds; so a statement the
    window starts without asking about pending edits comes back, when the
    server accepts it, with no rows and no columns. *)
Theorem statement_kind_agreement (drv : Driver) (editor_text : string)
  (w : World) (c : Connection) (cur : Cursor) :
  let q := strip editor_text in
  conn (db w) = Some c ->
  pg_execute drv (durable (srv w)) (txn c)
    {| text := snd (prepare q); params := [];
       cursor_name := if startswith "SELECT" (upper q)
                      then Some "pgcustom_cursor" else None |} = Done cur ->
  fst (prepare q) = startswith "SELECT" (upper q) /\
  exists res,
    fst (execute_query drv q w) = Ok res /\ error res = None /\
    (startswith "SELECT" (upper q) = false ->
     rows res = [] /\ columns res = [] /\ rowcount res = cur_rowcount cur) /\
    (startswith "SELECT" (upper q) = true ->
     rows res = fetchall cur /\
     rowcount res = Z.of_nat (length (fetchall cur))).
Proof.
  intros q Hc Hx. subst q.
  pose proof (prepare_select editor_text) as Hsel.
  split; [ exact Hsel |].
  unfold execute_query. rewrite Hc.
  destruct (prepare (strip editor_text)) as [is_select stripped] eqn:Hp.
  cbn [fst snd] in *. subst is_select.
  unfold execute.
  destruct (startswith "SELECT" (upper (strip editor_text))) eqn:Hs;
    rewrite Hx; cbn.
  - eexists. split; [ reflexivity |]. cbn.
    split; [ reflexivity |]. split; [ discriminate |].
    intros _. split; reflexivity.
  - eexists. split; [ reflexivity |]. cbn.
    split; [ reflexivity |]. split; [| discriminate ].
    intros _. repeat split; reflexivity.
Qed.

Lemma statement_kind_agreement_witness :
  fst (prepare (strip " delete from items ")) = false /\
  exists res,
    fst (execute_query returning (strip " delete from items ") online) = Ok res /\
    rows res = [] /\ columns res = [].
Proof.
  destruct (statement_kind_agreement returning " delete from items " online
              open_connection one_row_cursor)
    as (Hk & res & Hr & _ & Hdml & _).
  - reflexivity.
  - vm_compute. reflexivity.
  - split; [ exact Hk |]. exists res. split; [ exact Hr |].
    destruct (Hdml eq_refl) as (H1 & H2 & _). split; assumption.
Defined.

End ExecutionFacts.

(** ** The completion list *)

Section EditorFacts.
Import Py Editor.






Lemma existsb_eqb (x : string) (l : list string) :
  existsb (String.eqb x) l = true <-> In x l.
Proof.
  rewrite existsb_exists. split.
  - intros (y & Hy & He). apply String.eqb_eq in He. now subst.
  - intros H. exists x. split; [ exact H | apply String.eqb_refl ].
Qed.

Lemma unique_spec (cs : list string) :
  forall seen,
    List.NoDup (map lower (unique seen cs)) /\
    (forall c, In c (unique seen cs) -> In c cs /\ ~ In (lower c) seen) /\
    (forall c, In c cs -> In (lower c) seen \/
                        In (lower c) (map lower (unique seen cs))).
Proof.
  induction cs as [| c cs IH]; intros seen; cbn [unique].
  - split; [ constructor |]. split; [ intros c [] | intros c [] ].
  - destruct (existsb (String.eqb (lower c)) seen) eqn:E.
    + apply existsb_eqb in E.
      destruct (IH seen) as (Hnd & Hin & Hall).
      split; [ exact Hnd |]. split.
      * intros x Hx. destruct (Hin x Hx). split; [ now right | assumption ].
      * intros x [<- | Hx]; [ now left | now apply Hall ].
    + assert (Hc : ~ In (lower c) seen).
      { intros H. apply existsb_eqb in H. congruence. }
      destruct (IH (lower c :: seen)) as (Hnd & Hin & Hall).
      cbn [map]. split.
      * constructor; [| exact Hnd ].
        intros H. apply in_map_iff in H as (y & Hy & Hiny).
        destruct (Hin y Hiny) as [_ Hn]. apply Hn. left. now symmetry.
      * split.
        -- intros x [<- | Hx]; [ split; [ now left | exact Hc ] |].
           destruct (Hin x Hx) as [H1 H2]. split; [ now right |].
           intros H. apply H2. now right.
        -- intros x [<- | Hx]; [ right; now left |].
           destruct (Hall x Hx) as [[H | H] | H].
           ++ right. left. exact H.
           ++ now left.
           ++ right. now right.
Qed.






(** X16: the popup is hidden, and the completer's list left alone, exactly
    when the word under the cursor is empty or no keyword, table or column
    holds it; and removing the duplicates loses no candidate: each one is,
    up to case, in the list before it is cut to twenty. *)
Theorem completion_coverage (e : SqlEditor) (word : string) :
  (_update_completions e word = None <->
   word = "" \/ completions e word = []) /\
  (forall c, In c (completions e word) ->
     In (lower c) (map lower (unique [] (completions e word)))).
Proof.
  unfold _update_completions. split.
  - destruct word as [| a word]; cbn [String.length Nat.ltb Nat.leb].
    + split; [ now left | reflexivity ].
    + destruct (completions e (String a word)); split.
      * now right.
      * reflexivity.
      * discriminate.
      * intros [H | H]; discriminate.
  - intros c Hc. destruct (unique_spec (completions e word) []) as (_ & _ & H).
    destruct (H c Hc) as [[] | H']. exact H'.
Qed.

Lemma completion_coverage_witness :
  _update_completions new_editor "zz" = None /\
  In "limit" (map lower (unique [] (completions new_editor "it"))).
Proof.
  destruct (completion_coverage new_editor "zz") as [[_ Hnone] _].
  split; [ apply Hnone; right; vm_compute; reflexivity |].
  destruct (completion_coverage new_editor "it") as [_ Hall].
  apply (Hall "LIMIT"). vm_compute. auto.
Defined.

End EditorFacts.

(** ** More on the grid *)

Section GridMore.
Import Py Value Session Grid Window Samples.

Lemma edits_set_length (k : coord) (v : pyval) (d : edits_dict) :
  length (edits_set k v d) =
  if edits_mem k d then length d else S (length d).
Proof.
  unfold edits_mem. induction d as [| [k' v'] d IH]; [ reflexivity |].
  cbn [edits_set edits_get]. destruct (coord_eqb k' k); [ reflexivity |].
  cbn [length]. rewrite IH. now destruct (edits_get k d).
Qed.

Lemma edits_del_length (k : coord) (d : edits_dict) :
  edits_mem k d = true -> S (length (edits_del k d)) = length d.
Proof.
  unfold edits_mem. induction d as [| [k' v'] d IH]; [ discriminate |].
  cbn [edits_del edits_get]. destruct (coord_eqb k' k); [ reflexivity |].
  intros H. cbn [length]. now rewrite IH.
Qed.

(** X17: [setData] answers False and changes nothing for a role other than
    EditRole or an invalid index; it raises [IndexError] for a cell outside
    the fetched rows and columns; inside the grid it answers True, leaves the
    fetched rows alone and announces the new number of edits, which is one
    more when an unedited cell gets a value other than the fetched one, one
    less when an edited cell is set back to its fetched value, and unchanged
    otherwise. *)
Theorem setData_contract (m : ResultsModel) (value : pyval) :
  (forall index role,
     role <> EditRole \/ index = InvalidIndex ->
     setData m index value role = Ok (m, [], false)) /\
  (forall row col,
     length (_data m) <= row \/ length (_columns m) <= col ->
     setData m (Index row col) value EditRole = Raise IndexError) /\
  (forall row col,
     row < length (_data m) -> col < length (_columns m) ->
     exists orig m',
       original m row col = Some orig /\
       setData m (Index row col) value EditRole =
         Ok (m', [dataChanged (Index row col) (Index row col);
                  editsChanged (edit_count m')], true) /\
       _data m' = _data m /\ _columns m' = _columns m /\
       edit_count m' =
         match py_ne value orig, edits_mem (row, col) (_edits m) with
         | true, false => edit_count m + 1
         | false, true => edit_count m - 1
         | _, _ => edit_count m
         end).
Proof.
  split; [| split ].
  - intros index role [H | ->].
    + destruct role; try reflexivity. congruence.
    + now destruct role.
  - intros row col H. unfold setData, item.
    destruct (_data m !! row) as [r |] eqn:Hr; cbn.
    + destruct (_columns m !! col) as [c |] eqn:Hc; [| reflexivity ].
      apply lookup_lt_Some in Hr, Hc. lia.
    + reflexivity.
  - intros row col Hr Hc.
    destruct (setData_in_grid m row col value Hr Hc) as (orig & Ho & Hs).
    exists orig, (with_edits (edits_after m (row, col) value orig) m).
    split; [ exact Ho |]. split; [ exact Hs |].
    split; [ reflexivity |]. split; [ reflexivity |].
    unfold edit_count, edits_after. cbn [_edits with_edits].
    destruct (py_ne value orig).
    + rewrite edits_set_length.
      destruct (edits_mem (row, col) (_edits m)); lia.
    + destruct (edits_mem (row, col) (_edits m)) eqn:E; [| reflexivity ].
      apply edits_del_length in E. lia.
Qed.

Lemma setData_contract_witness :
  setData edited_grid (Index 2 0) (PInt 4) EditRole = Raise IndexError /\
  exists m', setData edited_grid (Index 0 1) (PInt 5) EditRole =
               Ok (m', [dataChanged (Index 0 1) (Index 0 1); editsChanged 1],
                   true).
Proof.
  destruct (setData_contract edited_grid (PInt 4)) as (_ & Hout & _).
  split; [ apply Hout; left; vm_compute; lia |].
  destruct (setData_contract edited_grid (PInt 5)) as (_ & _ & Hin).
  destruct (Hin 0 1) as (orig & m' & Ho & Hs & _ & _ & Hcount).
  - vm_compute. lia.
  - vm_compute. lia.
  - exists m'. rewrite Hs. repeat f_equal.
    rewrite Hcount. vm_compute in Ho. inversion Ho; subst orig.
    vm_compute. reflexivity.
Defined.




Lemma data_without_edits (m : ResultsModel) (row col : nat) (orig : pyval) :
  original m row col = Some orig ->
  data (with_edits [] m) (Index row col) EditRole = QVal orig /\
  data (with_edits [] m) (Index row col) DisplayRole = display orig.
Proof.
  intros H. unfold data, original in *. cbn [with_edits _edits _data _columns edits_get].
  rewrite H. split; [ reflexivity |]. now destruct orig.
Qed.

(** X19: after a commit that succeeded, and after a rollback, the grid has
    no edits left and every cell reads the value that was fetched: the rows
    of the model are not updated with the committed values, which show only
    once the query is run again. *)
Theorem grid_after_commit (drv : Driver) (m : ResultsModel) (w : World) :
  (forall m' ui w',
     _commit_changes drv m w = (Ok (m', ui), w') ->
     In (StatusMessage "Changes committed") ui ->
     has_edits m' = false /\ _data m' = _data m /\
     forall row col orig,
       original m row col = Some orig ->
       data m' (Index row col) EditRole = QVal orig /\
       data m' (Index row col) DisplayRole = display orig) /\
  (let m' := fst (fst (_rollback_changes m w)) in
   has_edits m' = false /\ _data m' = _data m /\
   forall row col orig,
     original m row col = Some orig ->
     data m' (Index row col) EditRole = QVal orig /\
     data m' (Index row col) DisplayRole = display orig).
Proof.
  split.
  - intros m' ui w' H Hin. unfold _commit_changes in H.
    destruct (has_edits m) eqn:He.
    + destruct (is_nil (_pk_columns m)).
      { inversion H; subst. destruct Hin as [Hin | []]. discriminate. }
      destruct (get_pending_edits m) as [edits |]; [| discriminate ].
      destruct (run_updates drv (_schema m) (_table m) (_pk_columns m) edits [] w)
        as [[[| first others] |] w1]; [| | discriminate ].
      * cbn in H. inversion H; subst.
        split; [ reflexivity |]. split; [ reflexivity |].
        intros row col orig Ho. now apply data_without_edits.
      * inversion H; subst. destruct Hin as [Hin | [Hin | []]]; discriminate.
    + inversion H; subst. split; [ exact He |]. split; [ reflexivity |].
      intros row col orig Ho.
      assert (Hm : with_edits [] m' = m').
      { unfold has_edits in He. destruct m' as [? ? ? [|] ? ? ? ?];
          [ reflexivity | discriminate ]. }
      rewrite <- Hm. now apply data_without_edits.
  - cbn. split; [ reflexivity |]. split; [ reflexivity |].
    intros row col orig Ho. now apply data_without_edits.
Qed.

Lemma grid_after_commit_witness :
  exists m' ui w',
    _commit_changes willing edited_grid online = (Ok (m', ui), w') /\
    data edited_grid (Index 0 1) EditRole = QVal (PInt 6) /\
    data m' (Index 0 1) EditRole = QVal (PInt 5) /\
    length (durable (srv w')) = 2.
Proof.
  destruct (_commit_changes willing edited_grid online) as [[[m' ui] | e] w']
    eqn:H; [| vm_compute in H; discriminate ].
  exists m', ui, w'. split; [ reflexivity |].
  split; [ reflexivity |].
  destruct (grid_after_commit willing edited_grid online) as [Hc _].
  assert (Hin : In (StatusMessage "Changes committed") ui).
  { vm_compute in H. inversion H; subst. cbn. auto 10. }
  destruct (Hc m' ui w' H Hin) as (_ & _ & Hcell).
  split; [ apply (Hcell 0 1 (PInt 5)); reflexivity |].
  vm_compute in H. inversion H; subst. reflexivity.
Defined.



End GridMore.

(** ** The list of profiles in the dialog *)

Section DialogFacts.
Import Py Value Store Profiles Dialog.

Lemma existing_idx_none (n : pyval) (l : list ConnectionInfo) :
  existing_idx n l = None <-> forall c, In c l -> named n c = false.
Proof.
  induction l as [| c l IH]; cbn [existing_idx].
  - split; [ intros _ c [] | reflexivity ].
  - unfold named in *. destruct (py_eq (name c) n) eqn:E.
    + split; [ discriminate |]. intros H. specialize (H c (or_introl eq_refl)).
      congruence.
    + destruct (existing_idx n l) as [i |]; cbn.
      * split; [ discriminate |]. intros H.
        assert (Hn : Some i = None); [| discriminate ].
        apply IH. intros x Hx. apply H. now right.
      * split; [| reflexivity ]. intros _ x [<- | Hx]; [ exact E |].
        now apply IH.
Qed.

Lemma existing_idx_some (n : pyval) (l : list ConnectionInfo) (i : nat) :
  existing_idx n l = Some i ->
  exists pre c post,
    l = pre ++ c :: post /\ length pre = i /\ named n c = true /\
    forall x, In x pre -> named n x = false.
Proof.
  revert i. induction l as [| c l IH]; intros i; cbn [existing_idx];
    [ discriminate |].
  destruct (py_eq (name c) n) eqn:E.
  - intros H. inversion H; subst. exists [], c, l.
    repeat split; auto. intros x [].
  - destruct (existing_idx n l) as [j |]; [| discriminate ].
    cbn. intros H. inversion H; subst.
    destruct (IH j eq_refl) as (pre & c' & post & -> & Hlen & Hc & Hpre).
    exists (c :: pre), c', post. repeat split; auto.
    + cbn. now rewrite Hlen.
    + intros x [<- | Hx]; [ exact E | now apply Hpre ].
Qed.

Lemma named_text (n : string) (c : ConnectionInfo) :
  named (PStr n) c = true <-> name c = PStr n.
Proof.
  unfold named, py_eq. destruct (name c) as [| b | z | s]; cbn.
  - split; discriminate.
  - split; discriminate.
  - split; discriminate.
  - rewrite String.eqb_eq. split; congruence.
Qed.

Lemma snoc_keeps_NoDup {A : Type} (x : A) (l : list A) :
  List.NoDup l -> ~ In x l -> List.NoDup (l ++ [x]).
Proof.
  induction 1 as [| a l Ha Hl IH]; intros Hx; cbn.
  - constructor; [ intros [] | constructor ].
  - constructor.
    + intros H. apply in_app_or in H as [H | [<- | []]]; [ now apply Ha |].
      apply Hx. now left.
    + apply IH. intros H. apply Hx. now right.
Qed.

(** X21: [_save_connection] writes the profile of the form, whose name is
    never empty and which carries no timestamp. A list without a profile of
    that name gets it at the end; otherwise the first profile of that name is
    replaced where it stands, so that the time it was last used is forgotten,
    and nothing else changes. The file then holds exactly the list of the
    dialog, and names that were distinct stay distinct. *)
Theorem save_connection_effect (f : Form) (l : list ConnectionInfo) :
  let info := _get_current_info f in
  let l' := fst (_save_connection f l) in
  name info <> PStr "" /\ last_connected_at info = PNone /\
  load_connections (snd (_save_connection f l)) = Ok l' /\
  ((forall c, In c l -> named (name info) c = false) -> l' = l ++ [info]) /\
  (forall pre c post,
     l = pre ++ c :: post ->
     (forall x, In x pre -> named (name info) x = false) ->
     named (name info) c = true ->
     l' = pre ++ info :: post) /\
  (List.NoDup (map name l) -> List.NoDup (map name l')).
Proof.
  cbv zeta. unfold _save_connection. cbn [fst snd].
  set (info := _get_current_info f).
  split.
  { unfold info, _get_current_info. cbn [name].
    destruct (name_edit f); cbn; discriminate. }
  split; [ reflexivity |]. split; [ apply load_saved |].
  split; [| split ].
  - intros H. apply existing_idx_none in H. now rewrite H.
  - intros pre c post -> Hpre Hc.
    destruct (existing_idx (name info) (pre ++ c :: post)) as [i |] eqn:E.
    + apply existing_idx_some in E
        as (pre' & c' & post' & Heq & Hlen & Hc' & Hpre').
      assert (Hsame : pre' = pre /\ c' = c /\ post' = post).
      { clear - Heq Hpre Hc Hc' Hpre'. revert pre' Heq Hpre'.
        induction pre as [| x pre IH]; intros [| y pre'] Heq Hpre'.
        - cbn in Heq. inversion Heq. auto.
        - cbn in Heq. inversion Heq; subst.
          specialize (Hpre' _ (or_introl eq_refl)). congruence.
        - cbn in Heq. inversion Heq; subst.
          specialize (Hpre _ (or_introl eq_refl)). congruence.
        - cbn in Heq. inversion Heq; subst.
          destruct (IH (fun z Hz => Hpre z (or_intror Hz)) pre' H1
                       (fun z Hz => Hpre' z (or_intror Hz))) as (-> & -> & ->).
          auto. }
      destruct Hsame as (-> & -> & ->). subst i.
      rewrite insert_app_r_alt by lia.
      rewrite Nat.sub_diag. reflexivity.
    + rewrite existing_idx_none in E.
      specialize (E c). rewrite E in Hc; [ discriminate |].
      apply in_or_app. right. now left.
  - intros Hnd.
    destruct (existing_idx (name info) l) as [i |] eqn:E.
    + apply existing_idx_some in E as (pre & c & post & -> & Hlen & Hc & _).
      subst i. rewrite insert_app_r_alt by lia. rewrite Nat.sub_diag.
      cbn [insert list_insert]. 
      assert (Hname : name info = name c).
      { unfold info, _get_current_info in *. cbn [name] in *.
        apply named_text in Hc. now rewrite Hc. }
      rewrite map_app in *. cbn [map] in *. now rewrite Hname.
    + rewrite existing_idx_none in E.
      rewrite map_app. cbn [map].
      apply snoc_keeps_NoDup; [ exact Hnd |].
      intros Hx. apply in_map_iff in Hx as (c & Hc & Hin).
      specialize (E c Hin). unfold info, _get_current_info in *.
      cbn [name] in *.
      assert (Ht : named (PStr (if truthy_str (name_edit f)
                                then name_edit f else "Unnamed")) c = true)
        by now apply named_text.
      congruence.
Qed.

Lemma save_connection_effect_witness :
  fst (_save_connection
         {| name_edit := "beta"; host_edit := "db2"; port_spin := 5433;
            dbname_edit := "postgres"; user_edit := "postgres";
            password_edit := "" |} Samples.tied_profiles) =
  [Samples.profile "alpha" (PStr "2024-05-17T18:02:11");
   {| name := PStr "beta"; host := PStr "db2"; port := PInt 5433;
      dbname := PStr "postgres"; user := PStr "postgres";
      password := PStr ""; last_connected_at := PNone |};
   Samples.profile "gamma" (PStr "2024-01-01T00:00:00")].
Proof.
  destruct (save_connection_effect
              {| name_edit := "beta"; host_edit := "db2"; port_spin := 5433;
                 dbname_edit := "postgres"; user_edit := "postgres";
                 password_edit := "" |} Samples.tied_profiles)
    as (_ & _ & _ & _ & Hreplace & _).
  apply (Hreplace [Samples.profile "alpha" (PStr "2024-05-17T18:02:11")]
                  (Samples.profile "beta" (PStr "2024-05-17T18:02:11"))
                  [Samples.profile "gamma" (PStr "2024-01-01T00:00:00")]).
  - reflexivity.
  - intros x [<- | []]. reflexivity.
  - reflexivity.
Defined.

Lemma delete_middle {A : Type} (pre post : list A) (c : A) :
  delete (length pre) (pre ++ c :: post) = pre ++ post.
Proof.
  induction pre as [| x pre IH]; [ reflexivity |].
  cbn [length app]. unfold delete in *. cbn [list_delete]. f_equal. exact IH.
Qed.

(** X22: [_delete_connection] does nothing while the first entry of the
    combo box, the one for a new connection, is selected. With the entry of a
    profile selected it removes that profile alone, the others keeping their
    order, and writes the shorter list to the file; an index beyond the list
    raises [IndexError] before anything is written. *)
Theorem delete_connection_effect (idx : Z) (l : list ConnectionInfo) (s : store) :
  ((idx <= 0)%Z -> _delete_connection idx l s = Ok (l, s)) /\
  ((Z.of_nat (length l) < idx)%Z ->
   _delete_connection idx l s = Raise IndexError) /\
  (forall pre c post,
     l = pre ++ c :: post -> idx = (Z.of_nat (length pre) + 1)%Z ->
     exists s',
       _delete_connection idx l s = Ok (pre ++ post, s') /\
       load_connections s' = Ok (pre ++ post)).
Proof.
  unfold _delete_connection. split; [| split ].
  - intros H. destruct (Z.ltb_spec 0 idx); [ lia | reflexivity ].
  - intros H. destruct (Z.ltb_spec 0 idx); [| lia ].
    destruct (Nat.ltb_spec (Z.to_nat (idx - 1)) (length l)); [ lia | reflexivity ].
  - intros pre c post -> ->.
    destruct (Z.ltb_spec 0 (Z.of_nat (length pre) + 1)); [| lia ].
    replace (Z.to_nat (Z.of_nat (length pre) + 1 - 1)) with (length pre) by lia.
    destruct (Nat.ltb_spec (length pre) (length (pre ++ c :: post))) as [_ | Hlen].
    + rewrite delete_middle. eexists. split; [ reflexivity | apply load_saved ].
    + rewrite length_app in Hlen. cbn in Hlen. lia.
Qed.

Lemma delete_connection_effect_witness :
  exists s',
    _delete_connection 2 Samples.tied_profiles Samples.three_profiles =
      Ok ([Samples.profile "alpha" (PStr "2024-05-17T18:02:11");
           Samples.profile "gamma" (PStr "2024-01-01T00:00:00")], s') /\
    _delete_connection 4 Samples.tied_profiles Samples.three_profiles =
      Raise IndexError.
Proof.
  destruct (delete_connection_effect 2 Samples.tied_profiles
              Samples.three_profiles) as (_ & _ & Hdel).
  destruct (Hdel [Samples.profile "alpha" (PStr "2024-05-17T18:02:11")]
                 (Samples.profile "beta" (PStr "2024-05-17T18:02:11"))
                 [Samples.profile "gamma" (PStr "2024-01-01T00:00:00")]
                 eq_refl eq_refl) as (s' & Hs & _).
  exists s'. split; [ exact Hs |].
  destruct (delete_connection_effect 4 Samples.tied_profiles
              Samples.three_profiles) as (_ & Hout & _).
  apply Hout. vm_compute. reflexivity.
Defined.

End DialogFacts.
